(** * NGNX.DATA.FileProxy: lock manager, disk adapter and save guard

    A shallow embedding of [src/index.js] (class [FileProxy]).  The
    methods of the class read and write three things: the fields of the
    proxy object, the file system, and the lock markers kept by the
    [proper-lockfile] package.  They are modelled as computations over
    one explicit [State] in a state-and-exception monad whose third
    outcome, running out of fuel, stands for a call that never returns.

    Collaborators that live outside the repository are modelled as
    follows.
    - Node's [path] module is an interface ([PathModule]); the POSIX
      flavour is given as an instance.
    - Node's [crypto] module is an interface ([CryptoModule]).
    - Node's [fs], [NGN.util.pathReadable] and [proper-lockfile] act on
      the [fs] and [locks] components of the state.
    - [console.warn], [emit] and every external call leave an [event] in
      the chronological [trace], so that ordering and "never invoked" can
      be stated.

    Text is represented by its UTF-8 byte string; staleness of a lock
    (a matter of wall-clock time) is outside the model. *)

From Stdlib Require Import Ascii String List Bool Arith Lia.
From stdpp Require Import base option gmap strings list.

Local Open Scope string_scope.
Local Open Scope list_scope.

(** ** JavaScript string helpers *)

Module Js.

(** The one-character string holding a double quote. *)
Definition dquote : string := String (ascii_of_nat 34) EmptyString.

(** [s.startsWith(p)] *)
Fixpoint starts_with (p s : string) : bool :=
  match p, s with
  | EmptyString, _ => true
  | String a p', String b s' => if Ascii.eqb a b then starts_with p' s' else false
  | String _ _, EmptyString => false
  end.

(** [s.slice(n)] *)
Fixpoint drop (n : nat) (s : string) : string :=
  match n, s with
  | O, _ => s
  | S n', String _ s' => drop n' s'
  | S _, EmptyString => EmptyString
  end.

(** The first occurrence of [pat] in [s], as the text before it and the
    text after it. *)
Fixpoint find_first (pat s : string) : option (string * string) :=
  if starts_with pat s then Some (EmptyString, drop (String.length pat) s)
  else match s with
       | EmptyString => None
       | String c s' =>
           match find_first pat s' with
           | Some (pre, post) => Some (String c pre, post)
           | None => None
           end
       end.

(** GetSubstitution for a string pattern (no captures): [$$], [$&],
    [$`] and [$'] are expanded, every other character is literal. *)
Fixpoint substitution (repl matched pre post : string) : string :=
  match repl with
  | EmptyString => EmptyString
  | String "$" (String "$" r) => "$" +:+ substitution r matched pre post
  | String "$" (String "&" r) => matched +:+ substitution r matched pre post
  | String "$" (String "`" r) => pre +:+ substitution r matched pre post
  | String "$" (String "'" r) => post +:+ substitution r matched pre post
  | String c r => String c (substitution r matched pre post)
  end.

(** [s.replace(pat, repl)] with a string pattern: only the first
    occurrence is replaced. *)
Definition replace (s pat repl : string) : string :=
  match find_first pat s with
  | Some (pre, post) => pre +:+ substitution repl pat pre post +:+ post
  | None => s
  end.

(** Truthiness of a value that is a string or [null]. *)
Definition truthy (v : option string) : bool :=
  match v with
  | Some (String _ _) => true
  | _ => false
  end.

End Js.

(** ** Node's [path] module *)

Record PathModule := {
  basename : string -> string;      (* path.basename(p) *)
  dirname : string -> string;       (* path.dirname(p) *)
  join_up : string -> string        (* path.join(p, '..') *)
}.

Module Posix.

Definition is_slash (c : ascii) : bool := Ascii.eqb c "/".

Fixpoint drop_while (f : ascii -> bool) (l : list ascii) : list ascii :=
  match l with
  | [] => []
  | c :: r => if f c then drop_while f r else l
  end.

Fixpoint take_while (f : ascii -> bool) (l : list ascii) : list ascii :=
  match l with
  | [] => []
  | c :: r => if f c then c :: take_while f r else []
  end.

(** [s.split('/')] *)
Fixpoint split_slash (s : string) : list string :=
  match s with
  | EmptyString => [EmptyString]
  | String c r =>
      if is_slash c then EmptyString :: split_slash r
      else match split_slash r with
           | h :: t => String c h :: t
           | [] => [String c EmptyString]
           end
  end.

(** One step of [normalizeString]: [stack] holds the segments kept so
    far, innermost first. *)
Definition push_segment (above_root : bool) (stack : list string) (seg : string)
  : list string :=
  if String.eqb seg "" || String.eqb seg "." then stack
  else if String.eqb seg ".." then
    match stack with
    | top :: rest =>
        if String.eqb top ".." then (if above_root then seg :: stack else stack)
        else rest
    | [] => if above_root then [seg] else []
    end
  else seg :: stack.

Definition normalize_segments (above_root : bool) (p : string) : list string :=
  rev (fold_left (push_segment above_root) (split_slash p) []).

Fixpoint join_slash (segs : list string) : string :=
  match segs with
  | [] => ""
  | [s] => s
  | s :: r => s +:+ "/" +:+ join_slash r
  end.

Definition last_is_slash (p : string) : bool :=
  match rev (list_ascii_of_string p) with
  | c :: _ => is_slash c
  | [] => false
  end.

(** [path.posix.normalize] *)
Definition normalize (p : string) : string :=
  match p with
  | EmptyString => "."
  | String c0 _ =>
      let abs := is_slash c0 in
      let trailing := last_is_slash p in
      let body := join_slash (normalize_segments (negb abs) p) in
      if String.eqb body "" then
        (if abs then "/" else if trailing then "./" else ".")
      else (if abs then "/" else "") +:+ body +:+ (if trailing then "/" else "")
  end.

(** [path.posix.join(p, '..')]: empty arguments are skipped. *)
Definition join_up (p : string) : string :=
  normalize (if String.eqb p "" then ".." else p +:+ "/..").

(** [path.posix.basename(p)] *)
Definition basename (p : string) : string :=
  string_of_list_ascii
    (rev (take_while (fun c => negb (is_slash c))
            (drop_while is_slash (rev (list_ascii_of_string p))))).

(** [path.posix.dirname(p)] *)
Definition dirname (p : string) : string :=
  match p with
  | EmptyString => "."
  | String c0 tl =>
      let scanned :=
        drop_while (fun c => negb (is_slash c))
          (drop_while is_slash (rev (list_ascii_of_string tl))) in
      match scanned with
      | [] => if is_slash c0 then "/" else "."
      | _ :: before =>
          if is_slash c0 && Nat.eqb (List.length before) 0 then "//"
          else String c0 (string_of_list_ascii (rev before))
      end
  end.

Definition module : PathModule := Build_PathModule basename dirname join_up.

End Posix.

(** ** Exceptions, events and the world *)

Inductive exn :=
| JsError (msg : string)                  (* new Error(msg) *)
| JsTypeError (msg : string)              (* property access on undefined *)
| SysError (code : string) (target : string)  (* fs, child_process, lockfile *)
| CryptoError (msg : string).

Inductive event :=
| ConsoleWarn (msg : string)
| Emit (name : string)
| LockSync (file : string)
| ReleaseCall (file : string)
| ExecSync (cmd : string)
| RenameSync (from to : string)
| MkdirSync (dir : string)
| WriteFileSync (file content : string).

(** An entry of the file system; [r_ok] is what [fs.access(p, R_OK)]
    answers for it. *)
Inductive node :=
| File (content : string) (r_ok : bool)
| Dir (r_ok : bool).

(** Who created a lock marker. *)
Inductive owner :=
| ThisProcess
| OtherProcess (pid : nat).

(** The release function returned by [lockSync]; it remembers the file
    it was created for. *)
Record handle := { h_file : string }.

(** ** Node's [crypto] module

    [createCipher(algorithm, password)] and [createDecipher] give a
    stream object; [update] returns the output produced so far and
    [final] the remainder.  Hex and UTF-8 conversions are done by the
    caller-chosen encodings and are modelled below, outside the
    interface. *)

Record CryptoModule := {
  cipher_obj : Type;
  createCipher : string -> string -> exn + cipher_obj;
  cipher_update : cipher_obj -> list ascii -> cipher_obj * list ascii;
  cipher_final : cipher_obj -> exn + list ascii;
  decipher_obj : Type;
  createDecipher : string -> string -> exn + decipher_obj;
  decipher_update : decipher_obj -> list ascii -> decipher_obj * list ascii;
  decipher_final : decipher_obj -> exn + list ascii
}.

Module Encoding.

Definition utf8_encode (s : string) : list ascii := list_ascii_of_string s.
Definition utf8_decode (b : list ascii) : string := string_of_list_ascii b.

Definition hex_digit (n : nat) : ascii :=
  if Nat.ltb n 10 then ascii_of_nat (48 + n) else ascii_of_nat (87 + n).

Definition hex_value (c : ascii) : option nat :=
  let n := nat_of_ascii c in
  if Nat.leb 48 n && Nat.leb n 57 then Some (n - 48)
  else if Nat.leb 97 n && Nat.leb n 102 then Some (n - 87)
  else if Nat.leb 65 n && Nat.leb n 70 then Some (n - 55)
  else None.

(** [buf.toString('hex')] *)
Fixpoint hex_encode (b : list ascii) : string :=
  match b with
  | [] => EmptyString
  | c :: r =>
      let n := nat_of_ascii c in
      String (hex_digit (n / 16)) (String (hex_digit (n mod 16)) (hex_encode r))
  end.

(** [Buffer.from(s, 'hex')]: decoding stops at the first pair that is
    not two hex digits; an odd last character is dropped. *)
Fixpoint hex_decode (s : string) : list ascii :=
  match s with
  | String a (String b r) =>
      match hex_value a, hex_value b with
      | Some h, Some l => ascii_of_nat (16 * h + l) :: hex_decode r
      | _, _ => []
      end
  | _ => []
  end.

End Encoding.

(** ** The state: the proxy object and its environment *)

Record State := {
  (* fields defined by the constructor *)
  dbfile : string;
  munge : option string;
  cipher : string;
  _autolock : bool;
  hidelock : bool;
  _release : option handle;
  _lockowner : bool;
  (* [this.proxy.lockfilepid] as text; [None] when [this.proxy] is undefined *)
  proxy_lockfilepid : option string;
  (* the process environment *)
  os : string;
  exec_fails : string -> bool;
  fs : gmap string node;
  locks : gmap string owner;
  trace : list event
}.

Definition set_dbfile (v : string) (st : State) : State :=
  {| dbfile := v; munge := munge st; cipher := cipher st;
     _autolock := _autolock st; hidelock := hidelock st;
     _release := _release st; _lockowner := _lockowner st;
     proxy_lockfilepid := proxy_lockfilepid st; os := os st;
     exec_fails := exec_fails st; fs := fs st; locks := locks st;
     trace := trace st |}.

Definition set_release (v : option handle) (st : State) : State :=
  {| dbfile := dbfile st; munge := munge st; cipher := cipher st;
     _autolock := _autolock st; hidelock := hidelock st;
     _release := v; _lockowner := _lockowner st;
     proxy_lockfilepid := proxy_lockfilepid st; os := os st;
     exec_fails := exec_fails st; fs := fs st; locks := locks st;
     trace := trace st |}.

Definition set_lockowner (v : bool) (st : State) : State :=
  {| dbfile := dbfile st; munge := munge st; cipher := cipher st;
     _autolock := _autolock st; hidelock := hidelock st;
     _release := _release st; _lockowner := v;
     proxy_lockfilepid := proxy_lockfilepid st; os := os st;
     exec_fails := exec_fails st; fs := fs st; locks := locks st;
     trace := trace st |}.

Definition set_fs (v : gmap string node) (st : State) : State :=
  {| dbfile := dbfile st; munge := munge st; cipher := cipher st;
     _autolock := _autolock st; hidelock := hidelock st;
     _release := _release st; _lockowner := _lockowner st;
     proxy_lockfilepid := proxy_lockfilepid st; os := os st;
     exec_fails := exec_fails st; fs := v; locks := locks st;
     trace := trace st |}.

Definition set_locks (v : gmap string owner) (st : State) : State :=
  {| dbfile := dbfile st; munge := munge st; cipher := cipher st;
     _autolock := _autolock st; hidelock := hidelock st;
     _release := _release st; _lockowner := _lockowner st;
     proxy_lockfilepid := proxy_lockfilepid st; os := os st;
     exec_fails := exec_fails st; fs := fs st; locks := v;
     trace := trace st |}.

Definition set_trace (v : list event) (st : State) : State :=
  {| dbfile := dbfile st; munge := munge st; cipher := cipher st;
     _autolock := _autolock st; hidelock := hidelock st;
     _release := _release st; _lockowner := _lockowner st;
     proxy_lockfilepid := proxy_lockfilepid st; os := os st;
     exec_fails := exec_fails st; fs := fs st; locks := locks st;
     trace := v |}.

(** ** The monad: state, exceptions, and divergence *)

Inductive result (A : Type) :=
| Return (a : A)
| Throw (e : exn).
Arguments Return {A} a.
Arguments Throw {A} e.

(** [None] means that the fuel ran out: the call has not returned. *)
Definition M (A : Type) : Type := State -> option (result A * State).

Definition ret {A} (a : A) : M A := fun st => Some (Return a, st).

Definition throw {A} (e : exn) : M A := fun st => Some (Throw e, st).

Definition diverge {A} : M A := fun _ => None.

Definition bind {A B} (m : M A) (k : A -> M B) : M B :=
  fun st =>
    match m st with
    | None => None
    | Some (Return a, st') => k a st'
    | Some (Throw e, st') => Some (Throw e, st')
    end.

#[export] Instance M_ret : MRet M := @ret.
#[export] Instance M_bind : MBind M := fun A B k m => bind m k.

Definition gets {A} (f : State -> A) : M A := fun st => Some (Return (f st), st).

Definition modify (f : State -> State) : M unit := fun st => Some (Return tt, f st).

Definition record (e : event) : M unit :=
  modify (fun st => set_trace (trace st ++ [e]) st).

(** ** Environment primitives *)

(** What [NGN.util.pathReadable(p)] answers in a state. *)
Definition readable (p : string) (st : State) : bool :=
  match fs st !! p with
  | Some (File _ true) => true
  | Some (Dir true) => true
  | _ => false
  end.

Definition is_dir (p : string) (st : State) : bool :=
  match fs st !! p with
  | Some (Dir _) => true
  | _ => false
  end.

(** What [filelocker.checkSync(this.dbfile)] answers: is there a marker
    for the current target path. *)
Definition marker_present (st : State) : bool :=
  match locks st !! dbfile st with
  | Some _ => true
  | None => false
  end.

Definition pathReadable (p : string) : M bool := gets (readable p).

Definition warn (msg : string) : M unit := record (ConsoleWarn msg).

Definition emit (name : string) : M unit := record (Emit name).

(** [child_process.execSync(cmd)] *)
Definition execSync (cmd : string) : M unit :=
  failing ← gets exec_fails;
  if failing cmd : bool then throw (SysError "ESPAWN" cmd)
  else record (ExecSync cmd).

(** Calling the release function: the marker of the file it was created
    for goes away, then the callback runs. *)
Definition release (h : handle) (callback : M unit) : M unit :=
  modify (fun st => set_locks (delete (h_file h) (locks st)) st);;
  record (ReleaseCall (h_file h));;
  callback.

(** ** The class [FileProxy] *)

Section FileProxy.

Variable path : PathModule.
Variable crypto : CryptoModule.

(** *** [fs] and [proper-lockfile] calls that look at the parent directory *)

(** [fs.mkdirSync(dir)]: the new directory is readable. *)
Definition mkdirSync (dir : string) : M unit :=
  st ← gets id;
  match fs st !! dir with
  | Some _ => throw (SysError "EEXIST" dir)
  | None =>
      match fs st !! dirname path dir with
      | Some (Dir _) =>
          modify (set_fs (<[dir := Dir true]> (fs st)));;
          record (MkdirSync dir)
      | Some (File _ _) => throw (SysError "ENOTDIR" dir)
      | None => throw (SysError "ENOENT" dir)
      end
  end.

(** [fs.writeFileSync(file, content, {encoding: 'utf8'})]: the whole
    content of the file is replaced; a missing file is created. *)
Definition writeFileSync (file content : string) : M unit :=
  st ← gets id;
  match fs st !! file with
  | Some (Dir _) => throw (SysError "EISDIR" file)
  | Some (File _ r) =>
      modify (set_fs (<[file := File content r]> (fs st)));;
      record (WriteFileSync file content)
  | None =>
      if is_dir (dirname path file) st then
        modify (set_fs (<[file := File content true]> (fs st)));;
        record (WriteFileSync file content)
      else throw (SysError "ENOENT" file)
  end.

(** [fs.readFileSync(file).toString()] *)
Definition readFileSync (file : string) : M string :=
  st ← gets id;
  match fs st !! file with
  | Some (File content _) => mret content
  | Some (Dir _) => throw (SysError "EISDIR" file)
  | None => throw (SysError "ENOENT" file)
  end.

(** No other entry of the file system lies directly in [dir]. *)
Definition is_empty_dir (dir : string) (st : State) : bool :=
  bool_decide
    (map_Forall (fun p (_ : node) => p = dir \/ dirname path p <> dir) (fs st)).

(** The error code with which rename(2) refuses to put the entry [n]
    of [from] in the place of what is at [to]: a file does not replace
    a directory, a directory does not replace a file, and a directory
    replaces only an empty directory.  Renaming a path to itself is
    never refused. *)
Definition rename_error (from to : string) (n : node) (st : State) : option string :=
  if String.eqb from to then None
  else
    match n, fs st !! to with
    | File _ _, Some (Dir _) => Some "EISDIR"
    | Dir _, Some (File _ _) => Some "ENOTDIR"
    | Dir _, Some (Dir _) =>
        if is_empty_dir to st then None else Some "ENOTEMPTY"
    | _, _ => None
    end.

(** [fs.renameSync(from, to)]: a destination that may be replaced is
    replaced.  The entry of [from] is what moves; the methods rename the
    proxy's target file, and entries below a renamed directory are not
    re-keyed. *)
Definition renameSync (from to : string) : M unit :=
  st ← gets id;
  match fs st !! from with
  | None => throw (SysError "ENOENT" from)
  | Some n =>
      if is_dir (dirname path to) st then
        match rename_error from to n st with
        | Some code => throw (SysError code to)
        | None =>
            modify (set_fs (<[to := n]> (delete from (fs st))));;
            record (RenameSync from to)
        end
      else throw (SysError "ENOENT" to)
  end.

(** [filelocker.lockSync(file, {stale, update, realpath: false})]: the
    marker is a directory created next to the file. *)
Definition lockSync (file : string) : M handle :=
  st ← gets id;
  match locks st !! file with
  | Some _ => throw (SysError "ELOCKED" file)
  | None =>
      if is_dir (dirname path file) st then
        modify (set_locks (<[file := ThisProcess]> (locks st)));;
        record (LockSync file);;
        mret {| h_file := file |}
      else throw (SysError "ENOENT" file)
  end.

(** *** Getters *)

(** [get locked ()]: a failing check counts as "not locked". *)
Definition locked : M bool := gets marker_present.

(** [get isLockOwner ()] *)
Definition isLockOwner : M bool := gets _lockowner.

(** *** [mkdirp (dir)] *)

Fixpoint mkdirp (fuel : nat) (dir : string) : M unit :=
  match fuel with
  | O => diverge
  | S fuel' =>
      here ← pathReadable dir;
      if here : bool then mret tt
      else
        above ← pathReadable (join_up path dir);
        if above : bool then mkdirSync dir
        else
          mkdirp fuel' (join_up path dir);;
          mkdirp fuel' dir
  end.

(** *** [encrypt (data)] and [decrypt (data)]

    [update (data, 'utf8', 'hex')] takes the UTF-8 bytes of its input
    and gives its output as hex text; [update (data, 'hex', 'utf8')]
    goes the other way.  A [null] password is refused by
    [createCipher] with a [TypeError]. *)

Definition encrypt (data : string) : M string :=
  alg ← gets cipher;
  key ← gets munge;
  match key with
  | None => throw (JsTypeError "Cipher password must be a string or a buffer")
  | Some password =>
      match createCipher crypto alg password with
      | inl e => throw e
      | inr c =>
          let (c', out) := cipher_update crypto c (Encoding.utf8_encode data) in
          let encoded := Encoding.hex_encode out in
          match cipher_final crypto c' with
          | inl e => throw e
          | inr last => mret (encoded +:+ Encoding.hex_encode last)
          end
      end
  end.

Definition decrypt (data : string) : M string :=
  alg ← gets cipher;
  key ← gets munge;
  match key with
  | None => throw (JsTypeError "Cipher password must be a string or a buffer")
  | Some password =>
      match createDecipher crypto alg password with
      | inl e => throw e
      | inr c =>
          let (c', out) := decipher_update crypto c (Encoding.hex_decode data) in
          let decoded := Encoding.utf8_decode out in
          match decipher_final crypto c' with
          | inl e => throw e
          | inr last => mret (decoded +:+ Encoding.utf8_decode last)
          end
      end
  end.

(** *** [hide (absolutePath)] *)

Definition hide (absolutePath : string) : M unit :=
  found ← pathReadable absolutePath;
  if negb found then
    warn ("Cannot hide " +:+ absolutePath +:+ " (does not exist or cannot be found)")
  else
    platform ← gets os;
    if String.eqb platform "darwin" then
      execSync ("chflags hidden " +:+ Js.dquote +:+ absolutePath +:+ Js.dquote)
    else if String.eqb platform "win32" then
      execSync ("attrib +h " +:+ Js.dquote +:+ absolutePath +:+ Js.dquote)
    else
      file ← gets dbfile;
      let asset := basename path file in
      if String.eqb (substring 0 1 asset) "." then mret tt
      else
        let newFilepath := Js.replace file asset ("." +:+ asset) in
        renameSync file newFilepath;;
        modify (set_dbfile newFilepath).

(** *** [lock ()] *)

Definition lock : M unit :=
  held ← locked;
  if held : bool then mret tt
  else
    file ← gets dbfile;
    h ← lockSync file;
    modify (set_release (Some h));;
    modify (set_lockowner true);;
    hiding ← gets hidelock;
    (if hiding : bool then file' ← gets dbfile; hide file' else mret tt);;
    emit "filelock".

(** *** [unlock ()] *)

Definition unlock : M unit :=
  held ← locked;
  if negb held then mret tt
  else
    mine ← isLockOwner;
    if negb mine then
      warn "Cannot unlock (this process does not own the lockfile.)"
    else
      r ← gets _release;
      match r with
      | Some h => release h (emit "fileunlock")
      | None => mret tt
      end;;
      modify (set_release None).

(** *** [presave ()] *)

Definition presave (fuel : nat) : M unit :=
  held ← locked;
  if held : bool then
    pid ← gets proxy_lockfilepid;
    file ← gets dbfile;
    match pid with
    | None => throw (JsTypeError "Cannot read property 'lockfilepid' of undefined")
    | Some p =>
        throw (JsError ("Process ID " +:+ p +:+ " has a lock on " +:+ file
                        +:+ ". Cannot save."))
    end
  else
    file ← gets dbfile;
    mkdirp fuel (dirname path file).

(** *** [writeToDisk (content, encryptdata = true)] *)

Definition writeToDisk (content : string) (encryptdata : bool) : M unit :=
  auto ← gets _autolock;
  held ← locked;
  (if auto && negb held then lock else mret tt);;
  key ← gets munge;
  content' ← (if encryptdata && Js.truthy key then encrypt content
              else mret content);
  file ← gets dbfile;
  writeFileSync file content';;
  auto' ← gets _autolock;
  held' ← locked;
  if auto' && held' then unlock else mret tt.

(** The three steps of [writeToDisk], named so that its protocol can be
    stated step by step ([writeToDisk_steps] below shows that they
    compose to the method). *)

Definition acquire_if_needed : M unit :=
  auto ← gets _autolock;
  held ← locked;
  if auto && negb held then lock else mret tt.

Definition store (content : string) (encryptdata : bool) : M unit :=
  key ← gets munge;
  content' ← (if encryptdata && Js.truthy key then encrypt content
              else mret content);
  file ← gets dbfile;
  writeFileSync file content'.

Definition release_if_held : M unit :=
  auto ← gets _autolock;
  held ← locked;
  if auto && held then unlock else mret tt.

(** *** [readFromDisk (decrypt = true)]; [None] is JavaScript's [null] *)

Definition unrecognized_format : string :=
  "Unrecognized or encrypted format detected. If the file is encrypted, the proxy must have an encryptionKey configured..".

Definition readFromDisk (decrypting : bool) : M (option string) :=
  file ← gets dbfile;
  found ← pathReadable file;
  if negb found then mret None
  else
    content ← readFileSync file;
    key ← gets munge;
    if decrypting && Js.truthy key then
      if Js.truthy key then
        content' ← decrypt content;
        mret (Some content')
      else throw (JsError unrecognized_format)
    else mret (Some content).

End FileProxy.

(** ** Running a computation *)

(** The state a call leaves behind ([st] itself when it never returns). *)
Definition after {A} (m : M A) (st : State) : State :=
  match m st with
  | Some (_, st') => st'
  | None => st
  end.

(** The [n]-th ancestor of a directory, as [mkdirp] climbs:
    [path.join(dir, '..')] taken [n] times. *)
Definition ancestor (path : PathModule) (n : nat) (dir : string) : string :=
  Nat.iter n (join_up path) dir.

(** The invariant that a release handle is stored only together with
    the owner flag: [lock] sets both, and nothing else stores a
    handle. *)
Definition handle_has_owner (st : State) : Prop :=
  _lockowner st = false -> _release st = None.

(** The events a call added to the trace. *)
Definition added_by (before after : State) (evs : list event) : Prop :=
  trace after = trace before ++ evs.

Definition is_write (e : event) : bool :=
  match e with
  | WriteFileSync _ _ => true
  | _ => false
  end.

Definition is_lock_traffic (e : event) : bool :=
  match e with
  | LockSync _ => true
  | ReleaseCall _ => true
  | _ => false
  end.

(** Events that are neither a write to a file nor a lock operation. *)
Definition quiet (e : event) : Prop :=
  is_write e = false /\ is_lock_traffic e = false.

(** The configuration fields, which no method assigns. *)
Definition same_config (st st' : State) : Prop :=
  _autolock st' = _autolock st /\
  munge st' = munge st /\
  cipher st' = cipher st.

(** The library contract used for the round trip: for this algorithm,
    password and plaintext, the decipher stream undoes the cipher
    stream. *)
Definition decipher_undoes_cipher (crypto : CryptoModule)
    (alg password : string) (plain : list ascii) : Prop :=
  exists c c' out last d d' back rest,
    createCipher crypto alg password = inr c /\
    cipher_update crypto c plain = (c', out) /\
    cipher_final crypto c' = inr last /\
    createDecipher crypto alg password = inr d /\
    decipher_update crypto d (out ++ last) = (d', back) /\
    decipher_final crypto d' = inr rest /\
    back ++ rest = plain.

(** ** A toy [crypto] module for examples

    One algorithm, ["rot"]: every byte is shifted by the length of the
    password; [final] adds nothing.  Any other name is refused, as
    OpenSSL refuses an unknown cipher. *)

Module Rot.

Definition shift (k : nat) (c : ascii) : ascii :=
  ascii_of_nat ((nat_of_ascii c + k) mod 256).

Definition unshift (k : nat) (c : ascii) : ascii :=
  ascii_of_nat ((nat_of_ascii c + (256 - k mod 256)) mod 256).

Definition create (alg password : string) : exn + nat :=
  if String.eqb alg "rot" then inr (String.length password)
  else inl (CryptoError "Unknown cipher").

Definition crypto : CryptoModule :=
  {| cipher_obj := nat;
     createCipher := create;
     cipher_update := fun k data => (k, map (shift k) data);
     cipher_final := fun _ => inr [];
     decipher_obj := nat;
     createDecipher := create;
     decipher_update := fun k data => (k, map (unshift k) data);
     decipher_final := fun _ => inr [] |}.

End Rot.

(** ** Concrete states for examples *)

Module Sample.

Definition never_fails : string -> bool := fun _ => false.

Definition dirs_only : gmap string node :=
  <["/data" := Dir true]> (<["/" := Dir true]> ∅).

Definition with_file (content : string) : gmap string node :=
  <["/data/db.txt" := File content true]> dirs_only.

(** A new proxy for [/data/db.txt] on Linux; the file does not exist. *)
Definition fresh : State :=
  {| dbfile := "/data/db.txt"; munge := None; cipher := "aes-256-cbc";
     _autolock := true; hidelock := true;
     _release := None; _lockowner := false;
     proxy_lockfilepid := None; os := "linux"; exec_fails := never_fails;
     fs := dirs_only; locks := ∅; trace := [] |}.

(** [fresh] after [lock ()]: nothing to hide yet, so a warning. *)
Definition locked_by_self : State :=
  {| dbfile := "/data/db.txt"; munge := None; cipher := "aes-256-cbc";
     _autolock := true; hidelock := true;
     _release := Some {| h_file := "/data/db.txt" |}; _lockowner := true;
     proxy_lockfilepid := None; os := "linux"; exec_fails := never_fails;
     fs := dirs_only; locks := <["/data/db.txt" := ThisProcess]> ∅;
     trace := [LockSync "/data/db.txt";
               ConsoleWarn "Cannot hide /data/db.txt (does not exist or cannot be found)";
               Emit "filelock"] |}.

(** [locked_by_self] after [unlock ()]. *)
Definition unlocked_again : State :=
  {| dbfile := "/data/db.txt"; munge := None; cipher := "aes-256-cbc";
     _autolock := true; hidelock := true;
     _release := None; _lockowner := true;
     proxy_lockfilepid := None; os := "linux"; exec_fails := never_fails;
     fs := dirs_only; locks := ∅;
     trace := [LockSync "/data/db.txt";
               ConsoleWarn "Cannot hide /data/db.txt (does not exist or cannot be found)";
               Emit "filelock";
               ReleaseCall "/data/db.txt";
               Emit "fileunlock"] |}.

(** A new proxy whose file exists and holds ["old"]. *)
Definition existing : State :=
  {| dbfile := "/data/db.txt"; munge := None; cipher := "aes-256-cbc";
     _autolock := true; hidelock := true;
     _release := None; _lockowner := false;
     proxy_lockfilepid := None; os := "linux"; exec_fails := never_fails;
     fs := with_file "old"; locks := ∅; trace := [] |}.

(** [existing] after [lock ()] on Linux: the file has been renamed and
    the stored path follows it, while the marker stays with the old
    path. *)
Definition hidden : State :=
  {| dbfile := "/data/.db.txt"; munge := None; cipher := "aes-256-cbc";
     _autolock := true; hidelock := true;
     _release := Some {| h_file := "/data/db.txt" |}; _lockowner := true;
     proxy_lockfilepid := None; os := "linux"; exec_fails := never_fails;
     fs := <["/data/.db.txt" := File "old" true]> dirs_only;
     locks := <["/data/db.txt" := ThisProcess]> ∅;
     trace := [LockSync "/data/db.txt";
               RenameSync "/data/db.txt" "/data/.db.txt";
               Emit "filelock"] |}.

(** The file exists and another process holds its lock. *)
Definition contended : State :=
  {| dbfile := "/data/db.txt"; munge := None; cipher := "aes-256-cbc";
     _autolock := true; hidelock := true;
     _release := None; _lockowner := false;
     proxy_lockfilepid := None; os := "linux"; exec_fails := never_fails;
     fs := with_file "old"; locks := <["/data/db.txt" := OtherProcess 4242]> ∅;
     trace := [] |}.

(** [contended] after [writeToDisk ("new")]. *)
Definition contended_written : State :=
  {| dbfile := "/data/db.txt"; munge := None; cipher := "aes-256-cbc";
     _autolock := true; hidelock := true;
     _release := None; _lockowner := false;
     proxy_lockfilepid := None; os := "linux"; exec_fails := never_fails;
     fs := with_file "new"; locks := <["/data/db.txt" := OtherProcess 4242]> ∅;
     trace := [WriteFileSync "/data/db.txt" "new";
               ConsoleWarn "Cannot unlock (this process does not own the lockfile.)"] |}.

(** [fresh] after [writeToDisk ("new")]: the file has been created and
    the lock taken for the write has been released. *)
Definition fresh_written : State :=
  {| dbfile := "/data/db.txt"; munge := None; cipher := "aes-256-cbc";
     _autolock := true; hidelock := true;
     _release := None; _lockowner := true;
     proxy_lockfilepid := None; os := "linux"; exec_fails := never_fails;
     fs := with_file "new"; locks := ∅;
     trace := [LockSync "/data/db.txt";
               ConsoleWarn "Cannot hide /data/db.txt (does not exist or cannot be found)";
               Emit "filelock";
               WriteFileSync "/data/db.txt" "new";
               ReleaseCall "/data/db.txt";
               Emit "fileunlock"] |}.

(** [locked_by_self] with the written file, as it is between the write
    and the release in [writeToDisk]. *)
Definition fresh_written_locked : State :=
  {| dbfile := "/data/db.txt"; munge := None; cipher := "aes-256-cbc";
     _autolock := true; hidelock := true;
     _release := Some {| h_file := "/data/db.txt" |}; _lockowner := true;
     proxy_lockfilepid := None; os := "linux"; exec_fails := never_fails;
     fs := with_file "new"; locks := <["/data/db.txt" := ThisProcess]> ∅;
     trace := [LockSync "/data/db.txt";
               ConsoleWarn "Cannot hide /data/db.txt (does not exist or cannot be found)";
               Emit "filelock";
               WriteFileSync "/data/db.txt" "new"] |}.

(** [existing] after [writeToDisk ("new")] on Linux: the write went to
    the renamed file, and the marker taken for the old path is still
    there. *)
Definition hidden_written : State :=
  {| dbfile := "/data/.db.txt"; munge := None; cipher := "aes-256-cbc";
     _autolock := true; hidelock := true;
     _release := Some {| h_file := "/data/db.txt" |}; _lockowner := true;
     proxy_lockfilepid := None; os := "linux"; exec_fails := never_fails;
     fs := <["/data/.db.txt" := File "new" true]> dirs_only;
     locks := <["/data/db.txt" := ThisProcess]> ∅;
     trace := [LockSync "/data/db.txt";
               RenameSync "/data/db.txt" "/data/.db.txt";
               Emit "filelock";
               WriteFileSync "/data/.db.txt" "new"] |}.

(** A proxy configured with the key ["t3stK3y"] and the toy cipher. *)
Definition keyed : State :=
  {| dbfile := "/data/db.txt"; munge := Some "t3stK3y"; cipher := "rot";
     _autolock := true; hidelock := true;
     _release := None; _lockowner := false;
     proxy_lockfilepid := None; os := "linux"; exec_fails := never_fails;
     fs := dirs_only; locks := ∅; trace := [] |}.

(** Nothing is readable, not even the root. *)
Definition void : State :=
  {| dbfile := "/data/db.txt"; munge := None; cipher := "aes-256-cbc";
     _autolock := true; hidelock := true;
     _release := None; _lockowner := false;
     proxy_lockfilepid := None; os := "linux"; exec_fails := never_fails;
     fs := ∅; locks := ∅; trace := [] |}.

End Sample.

(** ** Further methods: [unhide] and the [writeToDisk] of the database variant *)

Section Visibility.

Variable path : PathModule.

(** [unhide (absolutePath)]; the warning text is the one of [hide]. *)
Definition unhide (absolutePath : string) : M unit :=
  found ← pathReadable absolutePath;
  if negb found then
    warn ("Cannot hide " +:+ absolutePath +:+ " (does not exist or cannot be found)")
  else
    platform ← gets os;
    if String.eqb platform "darwin" then
      execSync ("chflags nohidden " +:+ Js.dquote +:+ absolutePath +:+ Js.dquote)
    else if String.eqb platform "win32" then
      execSync ("attrib -h " +:+ Js.dquote +:+ absolutePath +:+ Js.dquote)
    else
      file ← gets dbfile;
      let asset := basename path file in
      if negb (String.eqb (substring 0 1 asset) ".") then mret tt
      else
        let newFilepath :=
          Js.replace file asset (substring 1 (String.length asset) asset) in
        renameSync path file newFilepath;;
        modify (set_dbfile newFilepath).

(** [hide (this.dbfile)] followed by [unhide (this.dbfile)], each call
    reading the stored path when it is made. *)
Definition hide_then_unhide : M unit :=
  file ← gets dbfile;
  hide path file;;
  file' ← gets dbfile;
  unhide file'.

(** [hide (this.dbfile)] twice. *)
Definition hide_twice : M unit :=
  file ← gets dbfile;
  hide path file;;
  file' ← gets dbfile;
  hide path file'.

End Visibility.

Section DatabaseVariant.

Variable path : PathModule.
Variable crypto : CryptoModule.

(** [writeToDisk] as written in the class that extends
    [NGNX.DATA.DatabaseProxy] (src/unnamed/part_001): [lock ()] is
    called whenever autolock is on, without looking at [locked]
    first.  [lock], [unlock] and [locked] read there as in the file
    proxy; [munge] and [encrypt] come from the parent class and are
    taken to be the ones above. *)
Definition writeToDisk_database (content : string) (encryptdata : bool) : M unit :=
  auto ← gets _autolock;
  (if auto : bool then lock path else mret tt);;
  key ← gets munge;
  content' ← (if encryptdata && Js.truthy key then encrypt crypto content
              else mret content);
  file ← gets dbfile;
  writeFileSync path file content';;
  auto' ← gets _autolock;
  held' ← locked;
  if auto' && held' then unlock else mret tt.

End DatabaseVariant.

(** ** Further notions used in the statements *)

(** The invariant that a stored release handle stands for a marker this
    process holds. *)
Definition handle_marks_own (st : State) : Prop :=
  forall h, _release st = Some h -> locks st !! h_file h = Some ThisProcess.

(** [st'] differs from [st] in the file system and the trace at most. *)
Definition only_files_changed (st st' : State) : Prop :=
  st' = set_trace (trace st') (set_fs (fs st') st).

(** What a call returned, without the state. *)
Definition outcome {A} (m : M A) (st : State) : option (result A) :=
  match m st with
  | Some (r, _) => Some r
  | None => None
  end.

Definition is_lower_hex (c : ascii) : bool :=
  let n := nat_of_ascii c in
  (Nat.leb 48 n && Nat.leb n 57) || (Nat.leb 97 n && Nat.leb n 102).

Fixpoint all_chars (f : ascii -> bool) (s : string) : bool :=
  match s with
  | EmptyString => true
  | String c r => f c && all_chars f r
  end.

(** A file name that [hide] and [unhide] handle as intended: not empty,
    not dot-prefixed, and free of [/] and [$]. *)
Definition plain_name (name : string) : bool :=
  match name with
  | EmptyString => false
  | String c _ =>
      negb (Ascii.eqb c ".") &&
      all_chars (fun a => negb (Ascii.eqb a "/") && negb (Ascii.eqb a "$")) name
  end.

Definition not_slash (c : ascii) : bool := negb (Ascii.eqb c "/").

Definition not_dollar (c : ascii) : bool := negb (Ascii.eqb c "$").

(** What [path.posix.dirname] gives for [dir/name]. *)
Definition parent_of (dir : string) : string :=
  match dir with
  | EmptyString => "/"
  | String c EmptyString => if Posix.is_slash c then "//" else dir
  | _ => dir
  end.

(** The dot-prefixed path that [hide] gives to [dir/name]. *)
Definition hidden_path (dir name : string) : string :=
  dir +:+ "/" +:+ String "." name.

(** The state after [hide] renamed [dir/name], holding [entry]. *)
Definition state_after_hide (st : State) (dir name : string) (entry : node) : State :=
  set_dbfile (hidden_path dir name)
    (set_trace (trace st ++ [RenameSync (dbfile st) (hidden_path dir name)])
       (set_fs (<[hidden_path dir name := entry]> (delete (dbfile st) (fs st))) st)).

(** No platform-specific hiding command: the rename branch of [hide]. *)
Definition renaming_platform (st : State) : bool :=
  negb (String.eqb (os st) "darwin") && negb (String.eqb (os st) "win32").

(** ** More concrete states for examples *)

Module MoreSamples.

(** [Sample.fresh] after [mkdirp ("/data/a/b")]. *)
Definition made : State :=
  {| dbfile := "/data/db.txt"; munge := None; cipher := "aes-256-cbc";
     _autolock := true; hidelock := true;
     _release := None; _lockowner := false;
     proxy_lockfilepid := None; os := "linux";
     exec_fails := Sample.never_fails;
     fs := <["/data/a/b" := Dir true]> (<["/data/a" := Dir true]> Sample.dirs_only);
     locks := ∅;
     trace := [MkdirSync "/data/a"; MkdirSync "/data/a/b"] |}.

(** A new proxy for a file two directories below what exists. *)
Definition deep : State :=
  {| dbfile := "/data/a/b/db.txt"; munge := None; cipher := "aes-256-cbc";
     _autolock := true; hidelock := true;
     _release := None; _lockowner := false;
     proxy_lockfilepid := None; os := "linux";
     exec_fails := Sample.never_fails;
     fs := Sample.dirs_only; locks := ∅; trace := [] |}.

(** [deep] after [presave ()]. *)
Definition deep_prepared : State :=
  {| dbfile := "/data/a/b/db.txt"; munge := None; cipher := "aes-256-cbc";
     _autolock := true; hidelock := true;
     _release := None; _lockowner := false;
     proxy_lockfilepid := None; os := "linux";
     exec_fails := Sample.never_fails;
     fs := <["/data/a/b" := Dir true]> (<["/data/a" := Dir true]> Sample.dirs_only);
     locks := ∅;
     trace := [MkdirSync "/data/a"; MkdirSync "/data/a/b"] |}.

(** [Sample.keyed] after [writeToDisk ("{}")]: the file holds hex text. *)
Definition keyed_written : State :=
  {| dbfile := "/data/db.txt"; munge := Some "t3stK3y"; cipher := "rot";
     _autolock := true; hidelock := true;
     _release := None; _lockowner := true;
     proxy_lockfilepid := None; os := "linux";
     exec_fails := Sample.never_fails;
     fs := Sample.with_file "8284"; locks := ∅;
     trace := [LockSync "/data/db.txt";
               ConsoleWarn "Cannot hide /data/db.txt (does not exist or cannot be found)";
               Emit "filelock";
               WriteFileSync "/data/db.txt" "8284";
               ReleaseCall "/data/db.txt";
               Emit "fileunlock"] |}.

(** A key is configured, but the cipher name is one the toy module
    refuses. *)
Definition unknown_cipher : State :=
  {| dbfile := "/data/db.txt"; munge := Some "t3stK3y"; cipher := "no-such-cipher";
     _autolock := true; hidelock := true;
     _release := None; _lockowner := false;
     proxy_lockfilepid := None; os := "linux";
     exec_fails := Sample.never_fails;
     fs := Sample.dirs_only; locks := ∅; trace := [] |}.

(** [unknown_cipher] after a [writeToDisk] that threw in [encrypt]. *)
Definition unknown_cipher_stuck : State :=
  {| dbfile := "/data/db.txt"; munge := Some "t3stK3y"; cipher := "no-such-cipher";
     _autolock := true; hidelock := true;
     _release := Some {| h_file := "/data/db.txt" |}; _lockowner := true;
     proxy_lockfilepid := None; os := "linux";
     exec_fails := Sample.never_fails;
     fs := Sample.dirs_only;
     locks := <["/data/db.txt" := ThisProcess]> ∅;
     trace := [LockSync "/data/db.txt";
               ConsoleWarn "Cannot hide /data/db.txt (does not exist or cannot be found)";
               Emit "filelock"] |}.


(** [Sample.existing] after [lock ()] twice on Linux: the second call
    took a marker for the renamed path as well. *)
Definition hidden_locked_again : State :=
  {| dbfile := "/data/.db.txt"; munge := None; cipher := "aes-256-cbc";
     _autolock := true; hidelock := true;
     _release := Some {| h_file := "/data/.db.txt" |}; _lockowner := true;
     proxy_lockfilepid := None; os := "linux";
     exec_fails := Sample.never_fails;
     fs := <["/data/.db.txt" := File "old" true]> Sample.dirs_only;
     locks := <["/data/.db.txt" := ThisProcess]> (<["/data/db.txt" := ThisProcess]> ∅);
     trace := [LockSync "/data/db.txt";
               RenameSync "/data/db.txt" "/data/.db.txt";
               Emit "filelock";
               LockSync "/data/.db.txt";
               Emit "filelock"] |}.

(** The file exists, and a directory already has its dotted name. *)
Definition dotted_taken : State :=
  {| dbfile := "/data/db.txt"; munge := None; cipher := "aes-256-cbc";
     _autolock := true; hidelock := true;
     _release := None; _lockowner := false;
     proxy_lockfilepid := None; os := "linux";
     exec_fails := Sample.never_fails;
     fs := <["/data/.db.txt" := Dir true]> (Sample.with_file "old");
     locks := ∅; trace := [] |}.

End MoreSamples.

(** * Properties *)

(** ** Sanity checks of the model on the sample states *)

Example lock_fresh :
  lock Posix.module Sample.fresh = Some (Return tt, Sample.locked_by_self).
Proof. vm_compute. reflexivity. Qed.

Example unlock_locked_by_self :
  unlock Sample.locked_by_self = Some (Return tt, Sample.unlocked_again).
Proof. vm_compute. reflexivity. Qed.

Example lock_existing_renames :
  lock Posix.module Sample.existing = Some (Return tt, Sample.hidden).
Proof. vm_compute. reflexivity. Qed.

Example write_contended :
  writeToDisk Posix.module Rot.crypto "new" true Sample.contended
  = Some (Return tt, Sample.contended_written).
Proof. vm_compute. reflexivity. Qed.

Example write_fresh :
  writeToDisk Posix.module Rot.crypto "new" true Sample.fresh
  = Some (Return tt, Sample.fresh_written).
Proof. vm_compute. reflexivity. Qed.

Example write_existing_on_linux :
  writeToDisk Posix.module Rot.crypto "new" true Sample.existing
  = Some (Return tt, Sample.hidden_written).
Proof. vm_compute. reflexivity. Qed.

Example encrypt_keyed :
  encrypt Rot.crypto "{}" Sample.keyed = Some (Return "8284", Sample.keyed).
Proof. vm_compute. reflexivity. Qed.

(** What [renameSync] refuses: a file onto a directory, a directory
    onto a file or onto a directory that is not empty. *)
Example rename_error_by_destination :
  rename_error Posix.module "/data/db.txt" "/data/.db.txt" (File "old" true)
    MoreSamples.dotted_taken = Some "EISDIR" /\
  rename_error Posix.module "/data/.db.txt" "/data/db.txt" (Dir true)
    MoreSamples.dotted_taken = Some "ENOTDIR" /\
  rename_error Posix.module "/data/.db.txt" "/data" (Dir true)
    MoreSamples.dotted_taken = Some "ENOTEMPTY" /\
  rename_error Posix.module "/data/tmp" "/data/.db.txt" (Dir true)
    MoreSamples.dotted_taken = None /\
  rename_error Posix.module "/data/db.txt" "/data/old.txt" (File "old" true)
    MoreSamples.dotted_taken = None /\
  rename_error Posix.module "/data/db.txt" "/data/db.txt" (File "old" true)
    MoreSamples.dotted_taken = None.
Proof. vm_compute. repeat split. Qed.

Example posix_root_is_its_own_parent : Posix.join_up "/" = "/".
Proof. reflexivity. Qed.

(** ** Proof support *)

Ltac unfold_monad :=
  unfold mbind, mret, M_bind, M_ret, bind, ret, throw, gets, modify in *.

Ltac run_step := unfold_monad; cbn.

Create HintDb fileproxy.

Lemma marker_present_lookup (st : State) (o : owner) :
  locks st !! dbfile st = Some o -> marker_present st = true.
Proof. unfold marker_present. intros ->. reflexivity. Qed.

Lemma marker_absent_lookup (st : State) :
  marker_present st = false -> locks st !! dbfile st = None.
Proof. unfold marker_present. destruct (locks st !! dbfile st); [discriminate | reflexivity]. Qed.

#[export] Hint Resolve marker_present_lookup marker_absent_lookup : fileproxy.

Lemma bind_inv {A B} (m : M A) (k : A -> M B) (st st' : State) (r : result B) :
  (m ≫= k) st = Some (r, st') ->
  (exists a st1, m st = Some (Return a, st1) /\ k a st1 = Some (r, st')) \/
  (exists e, m st = Some (Throw e, st') /\ r = Throw e).
Proof.
  unfold mbind, M_bind, bind.
  destruct (m st) as [[[a|e] st1]|]; intros H.
  - left. eauto.
  - right. inversion H; subst. eauto.
  - discriminate.
Qed.

Lemma added_by_refl (st : State) : added_by st st [].
Proof. unfold added_by. rewrite app_nil_r. reflexivity. Qed.

Lemma added_by_trans (st1 st2 st3 : State) (e1 e2 : list event) :
  added_by st1 st2 e1 -> added_by st2 st3 e2 -> added_by st1 st3 (e1 ++ e2).
Proof. unfold added_by. intros H1 H2. rewrite H2, H1, app_assoc. reflexivity. Qed.

Lemma same_config_refl (st : State) : same_config st st.
Proof. unfold same_config. auto. Qed.

#[export] Hint Resolve added_by_refl same_config_refl : fileproxy.

(** ** Encodings *)

Lemma hex_digits_of_byte (c : ascii) :
  Encoding.hex_value (Encoding.hex_digit (nat_of_ascii c / 16))
  = Some (nat_of_ascii c / 16) /\
  Encoding.hex_value (Encoding.hex_digit (nat_of_ascii c mod 16))
  = Some (nat_of_ascii c mod 16) /\
  ascii_of_nat (16 * (nat_of_ascii c / 16) + nat_of_ascii c mod 16) = c.
Proof.
  destruct c as [[] [] [] [] [] [] [] []]; vm_compute; repeat split.
Qed.

Lemma append_cons (c : ascii) (s t : string) :
  String c s +:+ t = String c (s +:+ t).
Proof. reflexivity. Qed.

Lemma hex_decode_pair (a b : ascii) (r : string) :
  Encoding.hex_decode (String a (String b r))
  = match Encoding.hex_value a, Encoding.hex_value b with
    | Some h, Some l => ascii_of_nat (16 * h + l) :: Encoding.hex_decode r
    | _, _ => []
    end.
Proof. reflexivity. Qed.

Lemma hex_encode_cons (c : ascii) (b : list ascii) :
  Encoding.hex_encode (c :: b)
  = String (Encoding.hex_digit (nat_of_ascii c / 16))
      (String (Encoding.hex_digit (nat_of_ascii c mod 16)) (Encoding.hex_encode b)).
Proof. reflexivity. Qed.

Lemma hex_decode_encode_app (b : list ascii) (s : string) :
  Encoding.hex_decode (Encoding.hex_encode b +:+ s) = b ++ Encoding.hex_decode s.
Proof.
  induction b as [|c b IH]; [reflexivity|].
  destruct (hex_digits_of_byte c) as (Hh & Hl & Hc).
  rewrite hex_encode_cons, !append_cons, hex_decode_pair, Hh, Hl, Hc, IH.
  reflexivity.
Qed.

Lemma hex_encode_app (a b : list ascii) :
  Encoding.hex_encode (a ++ b) = Encoding.hex_encode a +:+ Encoding.hex_encode b.
Proof.
  induction a as [|c a IH]; [reflexivity|].
  rewrite <- app_comm_cons, !hex_encode_cons, IH, !append_cons. reflexivity.
Qed.

Lemma hex_decode_encode (b : list ascii) :
  Encoding.hex_decode (Encoding.hex_encode b) = b.
Proof.
  rewrite <- (app_nil_r b) at 1. rewrite hex_encode_app, hex_decode_encode_app.
  apply app_nil_r.
Qed.

Lemma utf8_decode_app (a b : list ascii) :
  Encoding.utf8_decode (a ++ b) = Encoding.utf8_decode a +:+ Encoding.utf8_decode b.
Proof.
  unfold Encoding.utf8_decode.
  induction a as [|c a IH]; [reflexivity|].
  rewrite <- app_comm_cons. cbn [string_of_list_ascii].
  rewrite IH, append_cons. reflexivity.
Qed.

Lemma utf8_decode_encode (s : string) :
  Encoding.utf8_decode (Encoding.utf8_encode s) = s.
Proof. apply string_of_list_ascii_of_string. Qed.

Section Properties.

Variable path : PathModule.
Variable crypto : CryptoModule.

(** *** The guards of [lock], [unlock] and [presave] *)

Lemma lock_when_locked (st : State) :
  marker_present st = true -> lock path st = Some (Return tt, st).
Proof. intros H. unfold lock, locked. run_step. rewrite H. reflexivity. Qed.

Lemma unlock_when_unlocked (st : State) :
  marker_present st = false -> unlock st = Some (Return tt, st).
Proof. intros H. unfold unlock, locked. run_step. rewrite H. reflexivity. Qed.

Lemma unlock_when_not_owner (st : State) :
  marker_present st = true -> _lockowner st = false ->
  unlock st
  = Some (Return tt,
          set_trace
            (trace st ++ [ConsoleWarn "Cannot unlock (this process does not own the lockfile.)"])
            st).
Proof.
  intros Hl Ho. unfold unlock, locked, isLockOwner, warn, record. run_step.
  rewrite Hl. cbn. rewrite Ho. reflexivity.
Qed.

Lemma unlock_when_owner (st : State) :
  marker_present st = true -> _lockowner st = true ->
  unlock st
  = match _release st with
    | Some h =>
        Some (Return tt,
              set_release None
                (set_trace (trace st ++ [ReleaseCall (h_file h); Emit "fileunlock"])
                   (set_locks (delete (h_file h) (locks st)) st)))
    | None => Some (Return tt, set_release None st)
    end.
Proof.
  intros Hl Ho. unfold unlock, locked, isLockOwner, release, emit, record. run_step.
  rewrite Hl. cbn. rewrite Ho. cbn. destruct (_release st) as [h|]; cbn; [|reflexivity].
  rewrite <- app_assoc. reflexivity.
Qed.

Lemma presave_when_locked (fuel : nat) (st : State) :
  marker_present st = true ->
  exists e, presave path fuel st = Some (Throw e, st).
Proof.
  intros H. unfold presave, locked. run_step. rewrite H.
  destruct (proxy_lockfilepid st); eexists; reflexivity.
Qed.

(** C1.  When another process holds the lock on the target file at the
    start of a save, [presave ()] throws, and whatever the save would do
    next (serialising, [writeToDisk], [postsave]) is not run: the whole
    state, and so the file system with the file's prior content and the
    trace of external calls, is exactly as before. *)
Theorem presave_aborts_on_foreign_lock :
  forall (A : Type) (rest_of_save : unit -> M A) (fuel : nat) (st : State) (pid : nat),
    locks st !! dbfile st = Some (OtherProcess pid) ->
    exists e,
      presave path fuel st = Some (Throw e, st) /\
      (presave path fuel ≫= rest_of_save) st = Some (Throw e, st) /\
      fs (after (presave path fuel ≫= rest_of_save) st) = fs st /\
      trace (after (presave path fuel ≫= rest_of_save) st) = trace st.
Proof.
  intros A k fuel st pid Hlock.
  destruct (presave_when_locked fuel st) as [e He]; [eauto with fileproxy|].
  exists e. split; [exact He|].
  assert (Hk : (presave path fuel ≫= k) st = Some (Throw e, st)).
  { unfold mbind, M_bind, bind. rewrite He. reflexivity. }
  unfold after. rewrite Hk. auto.
Qed.

Lemma set_release_same (st : State) : set_release (_release st) st = st.
Proof. destruct st; reflexivity. Qed.


(** C2, as amended.  When the file is locked, this process is the
    recorded owner and holds the release handle, [unlock ()] calls the
    release function, which removes the marker the handle was created
    for, forgets the handle and emits [fileunlock].  The owner flag is
    not reset: [isLockOwner] still answers [true]. *)
Theorem unlock_by_owner_releases :
  forall (st : State) (h : handle),
    marker_present st = true ->
    _lockowner st = true ->
    _release st = Some h ->
    exists st',
      unlock st = Some (Return tt, st') /\
      added_by st st' [ReleaseCall (h_file h); Emit "fileunlock"] /\
      locks st' = delete (h_file h) (locks st) /\
      (h_file h = dbfile st -> marker_present st' = false) /\
      _release st' = None /\
      isLockOwner st' = Some (Return true, st').
Proof.
  intros st h Hl Ho Hr.
  pose proof (unlock_when_owner st Hl Ho) as Hu. rewrite Hr in Hu.
  eexists. split; [exact Hu|].
  unfold added_by, isLockOwner, gets, marker_present. cbn.
  repeat split; try reflexivity.
  - intros ->. rewrite lookup_delete_eq. reflexivity.
  - rewrite Ho. reflexivity.
Qed.


(** *** What [hide], [lock], [encrypt] and [writeFileSync] can change *)

Lemma hide_effect (p : string) (st st' : State) (r : result unit) :
  hide path p st = Some (r, st') ->
  exists evs,
    added_by st st' evs /\ Forall quiet evs /\
    locks st' = locks st /\ _release st' = _release st /\
    _lockowner st' = _lockowner st /\ same_config st st'.
Proof.
  unfold hide, pathReadable, warn, execSync, renameSync, record. run_step.
  destruct (readable p st); cbn.
  - destruct (String.eqb (os st) "darwin"); [|destruct (String.eqb (os st) "win32")].
    + destruct (exec_fails st _); intros H; inversion H; subst; clear H.
      * exists []. repeat split; auto with fileproxy.
      * eexists [_]. unfold added_by, same_config, quiet. cbn.
        repeat split; auto.
    + destruct (exec_fails st _); intros H; inversion H; subst; clear H.
      * exists []. repeat split; auto with fileproxy.
      * eexists [_]. unfold added_by, same_config, quiet. cbn.
        repeat split; auto.
    + destruct (String.eqb _ "."); cbn.
      * intros H; inversion H; subst. exists []. repeat split; auto with fileproxy.
      * destruct (fs st !! dbfile st); cbn;
          [destruct (is_dir _ st); cbn;
           [destruct (rename_error _ _ _ _ st); cbn|]|];
          intros H; inversion H; subst; clear H.
        -- exists []. repeat split; auto with fileproxy.
        -- eexists [_]. unfold added_by, same_config, quiet. cbn.
           repeat split; auto.
        -- exists []. repeat split; auto with fileproxy.
        -- exists []. repeat split; auto with fileproxy.
  - intros H; inversion H; subst; clear H.
    eexists [_]. unfold added_by, same_config, quiet. cbn. repeat split; auto.
Qed.

Lemma lock_effect (st st' : State) (r : result unit) :
  marker_present st = false ->
  lock path st = Some (r, st') ->
  (exists e, r = Throw e /\ st' = st) \/
  (exists evs,
     added_by st st' (LockSync (dbfile st) :: evs) /\ Forall quiet evs /\
     locks st' = <[dbfile st := ThisProcess]> (locks st) /\
     _release st' = Some {| h_file := dbfile st |} /\
     _lockowner st' = true /\ same_config st st').
Proof.
  intros Hfree. unfold lock, locked, lockSync, emit, record. run_step.
  rewrite Hfree. cbn. rewrite (marker_absent_lookup st Hfree). cbn.
  destruct (is_dir (dirname path (dbfile st)) st); cbn.
  2:{ intros H; inversion H; subst. left. eauto. }
  intros H. right.
  destruct (hidelock st); cbn in H.
  - match type of H with
    | context [hide path ?p ?s] => destruct (hide path p s) as [[[[]|e] s1]|] eqn:Hh
    end; [| |discriminate].
    + inversion H; subst; clear H.
      destruct (hide_effect _ _ _ _ Hh) as (evs & Hadd & Hq & Hl & Hr & Ho & Hc).
      destruct Hc as (Ha & Hm & Hci).
      exists (evs ++ [Emit "filelock"]).
      unfold added_by, same_config in *. cbn in *. rewrite Hadd, Hl, Hr, Ho.
      repeat split; auto.
      * rewrite <- !app_assoc. reflexivity.
      * apply Forall_app. split; [exact Hq|]. repeat constructor.
    + inversion H; subst; clear H.
      destruct (hide_effect _ _ _ _ Hh) as (evs & Hadd & Hq & Hl & Hr & Ho & Hc).
      destruct Hc as (Ha & Hm & Hci).
      exists evs. unfold added_by, same_config in *. cbn in *.
      rewrite Hadd, Hl, Hr, Ho.
      repeat split; auto. rewrite <- !app_assoc. reflexivity.
  - inversion H; subst; clear H.
    exists [Emit "filelock"]. unfold added_by, same_config. cbn.
    repeat split; auto.
    + rewrite <- !app_assoc. reflexivity.
    + repeat constructor.
Qed.

Lemma encrypt_effect (data : string) (st st' : State) (r : result string) :
  encrypt crypto data st = Some (r, st') -> st' = st.
Proof.
  unfold encrypt. run_step.
  destruct (munge st); cbn; [|intros H; inversion H; reflexivity].
  destruct (createCipher crypto _ _); cbn; [intros H; inversion H; reflexivity|].
  destruct (cipher_update crypto _ _).
  destruct (cipher_final crypto _); intros H; inversion H; reflexivity.
Qed.

Lemma encrypt_returns (data : string) (st : State) :
  exists r, encrypt crypto data st = Some (r, st).
Proof.
  unfold encrypt. run_step.
  destruct (munge st); cbn; [|eauto].
  destruct (createCipher crypto _ _); cbn; [eauto|].
  destruct (cipher_update crypto _ _).
  destruct (cipher_final crypto _); eauto.
Qed.

Lemma writeFileSync_effect (file content : string) (st st' : State) (r : result unit) :
  writeFileSync path file content st = Some (r, st') ->
  (exists e, r = Throw e /\ st' = st) \/
  (r = Return tt /\
   exists ro,
     st' = set_trace (trace st ++ [WriteFileSync file content])
             (set_fs (<[file := File content ro]> (fs st)) st)).
Proof.
  unfold writeFileSync, record. run_step.
  destruct (fs st !! file) as [[c ro | ro]|]; cbn.
  - intros H; inversion H; subst. right. eauto.
  - intros H; inversion H; subst. left. eauto.
  - destruct (is_dir _ st); cbn; intros H; inversion H; subst.
    + right. eauto.
    + left. eauto.
Qed.

(** *** [writeToDisk] *)

Lemma encrypt_config (data : string) (st st1 : State) (r : result string) :
  same_config st st1 ->
  encrypt crypto data st1 = Some (r, st1) ->
  encrypt crypto data st = Some (r, st).
Proof.
  intros (_ & Hm & Hc). unfold encrypt. run_step. rewrite Hm, Hc.
  destruct (munge st); cbn; [|intros H; inversion H; reflexivity].
  destruct (createCipher crypto _ _); cbn; [intros H; inversion H; reflexivity|].
  destruct (cipher_update crypto _ _).
  destruct (cipher_final crypto _); intros H; inversion H; reflexivity.
Qed.

Lemma writeToDisk_steps (content : string) (encryptdata : bool) (st : State) :
  writeToDisk path crypto content encryptdata st
  = (acquire_if_needed path;; store path crypto content encryptdata;;
     release_if_held) st.
Proof.
  unfold writeToDisk, acquire_if_needed, store, release_if_held, locked. run_step.
  destruct (_autolock st && negb (marker_present st)); cbn.
  - destruct (lock path st) as [[[[]|e] st1]|]; [|reflexivity|reflexivity].
    destruct (encryptdata && Js.truthy (munge st1)); cbn.
    + destruct (encrypt crypto content st1) as [[[c|e] st1']|]; reflexivity.
    + reflexivity.
  - destruct (encryptdata && Js.truthy (munge st)); cbn.
    + destruct (encrypt crypto content st) as [[[c|e] st1']|]; reflexivity.
    + reflexivity.
Qed.

Lemma acquire_effect (st st1 : State) (r1 : result unit) :
  acquire_if_needed path st = Some (r1, st1) ->
  exists evs,
    added_by st st1 evs /\
    Forall (fun e => is_write e = false) evs /\
    same_config st st1 /\
    (_autolock st = false -> st1 = st) /\
    (_autolock st = true -> marker_present st = false ->
       (evs = [] /\ exists e, r1 = Throw e) \/
       (exists rest,
          evs = LockSync (dbfile st) :: rest /\
          locks st1 = <[dbfile st := ThisProcess]> (locks st))).
Proof.
  unfold acquire_if_needed, locked. run_step.
  destruct (_autolock st) eqn:Hauto; cbn.
  - destruct (marker_present st) eqn:Hheld; cbn.
    + intros H; inversion H; subst. exists [].
      repeat split; auto with fileproxy; discriminate.
    + intros H.
      destruct (lock_effect st st1 r1 Hheld H)
        as [(e & -> & ->) | (evs & Hadd & Hq & Hl & _ & _ & Hc)].
      * exists []. split_and!; auto with fileproxy; try discriminate.
        intros _ _. left. eauto.
      * exists (LockSync (dbfile st) :: evs).
        split_and!; try apply Hc; auto; try discriminate; eauto.
        constructor; [reflexivity|].
        eapply Forall_impl; [exact Hq|]. intros ev [Hw _]. exact Hw.
  - intros H; inversion H; subst. exists [].
    repeat split; auto with fileproxy; discriminate.
Qed.

Lemma store_effect (content : string) (encryptdata : bool)
    (st1 st2 : State) (r2 : result unit) :
  store path crypto content encryptdata st1 = Some (r2, st2) ->
  (exists e, r2 = Throw e /\ st2 = st1) \/
  (r2 = Return tt /\
   exists content' ro,
     st2 = set_trace (trace st1 ++ [WriteFileSync (dbfile st1) content'])
             (set_fs (<[dbfile st1 := File content' ro]> (fs st1)) st1) /\
     (encryptdata && Js.truthy (munge st1) = false -> content' = content) /\
     (encryptdata && Js.truthy (munge st1) = true ->
        encrypt crypto content st1 = Some (Return content', st1))).
Proof.
  unfold store. run_step.
  destruct (encryptdata && Js.truthy (munge st1)) eqn:Hkey; cbn.
  - destruct (encrypt crypto content st1) as [[[c|e] s]|] eqn:Henc; [| |discriminate].
    + pose proof (encrypt_effect _ _ _ _ Henc) as ->. intros H.
      destruct (writeFileSync_effect _ _ _ _ _ H) as [(e & -> & ->) | (-> & ro & ->)].
      * left. eauto.
      * right. split; [reflexivity|]. exists c, ro.
        repeat split; auto; discriminate.
    + pose proof (encrypt_effect _ _ _ _ Henc) as ->.
      intros H; inversion H; subst. left. eauto.
  - intros H.
    destruct (writeFileSync_effect _ _ _ _ _ H) as [(e & -> & ->) | (-> & ro & ->)].
    + left. eauto.
    + right. split; [reflexivity|]. exists content, ro.
      repeat split; auto; discriminate.
Qed.

Lemma release_effect (st2 st' : State) (r : result unit) :
  release_if_held st2 = Some (r, st') ->
  r = Return tt /\ fs st' = fs st2 /\ dbfile st' = dbfile st2 /\
  (exists evs, added_by st2 st' evs /\ Forall (fun e => is_write e = false) evs) /\
  (_autolock st2 && marker_present st2 = false -> st' = st2) /\
  (_autolock st2 && marker_present st2 = true ->
     unlock st2 = Some (Return tt, st')).
Proof.
  unfold release_if_held, locked. run_step.
  destruct (_autolock st2 && marker_present st2) eqn:Hc; cbn.
  2:{ intros H; inversion H; subst.
      split_and!; auto; try discriminate. exists []. auto with fileproxy. }
  apply andb_prop in Hc as [Hauto Hheld].
  destruct (_lockowner st2) eqn:Ho.
  - rewrite (unlock_when_owner st2 Hheld Ho).
    destruct (_release st2) as [h|]; intros H; inversion H; subst; cbn;
      split_and!; auto; try discriminate.
    + eexists [_; _]. unfold added_by. cbn. split; [reflexivity|].
      repeat constructor.
    + exists []. split; [|constructor].
      unfold added_by. cbn. rewrite app_nil_r. reflexivity.
  - rewrite (unlock_when_not_owner st2 Hheld Ho).
    intros H; inversion H; subst; cbn. split_and!; auto; try discriminate.
    eexists [_]. unfold added_by. cbn. split; [reflexivity|]. repeat constructor.
Qed.

(** X21.  The steps of [writeToDisk].  With autolock enabled: a call
    that throws has written nothing; in a call that returns,
    [lock ()] ran first when the file was not locked on entry (the
    [lockSync] of the target path precedes the write), the write
    replaced the whole content of the file at the stored path, and
    afterwards [unlock ()] ran exactly when a marker exists for the
    stored path: it calls the release function when the owner flag is
    set and a handle is stored, it changes nothing when the flag is set
    and no handle is stored, and it leaves the marker in place, with a
    warning, when the flag is unset.  With autolock disabled no lock
    operation happens and the markers, the handle and the owner flag
    stay as they were. *)
Theorem writeToDisk_lock_protocol :
  forall (st st' : State) (content : string) (encryptdata : bool) (r : result unit),
    writeToDisk path crypto content encryptdata st = Some (r, st') ->
    (_autolock st = true ->
       (forall e, r = Throw e ->
          exists evs, added_by st st' evs /\ Forall (fun ev => is_write ev = false) evs) /\
       (r = Return tt ->
          exists st2 before content' ro,
            added_by st st2 (before ++ [WriteFileSync (dbfile st2) content']) /\
            Forall (fun ev => is_write ev = false) before /\
            (marker_present st = false ->
               LockSync (dbfile st) ∈ before /\
               locks st2 !! dbfile st = Some ThisProcess) /\
            fs st2 !! dbfile st2 = Some (File content' ro) /\
            fs st' = fs st2 /\ dbfile st' = dbfile st2 /\
            (encryptdata && Js.truthy (munge st) = false -> content' = content) /\
            (encryptdata && Js.truthy (munge st) = true ->
               encrypt crypto content st = Some (Return content', st)) /\
            (marker_present st2 = false -> st' = st2) /\
            (marker_present st2 = true -> unlock st2 = Some (Return tt, st')) /\
            (marker_present st2 = true -> _lockowner st2 = true ->
               forall h, _release st2 = Some h ->
                 added_by st2 st' [ReleaseCall (h_file h); Emit "fileunlock"] /\
                 locks st' = delete (h_file h) (locks st2)) /\
            (marker_present st2 = true -> _lockowner st2 = false ->
               added_by st2 st'
                 [ConsoleWarn "Cannot unlock (this process does not own the lockfile.)"] /\
               locks st' = locks st2) /\
            (marker_present st2 = true -> _lockowner st2 = true ->
               _release st2 = None -> st' = st2))) /\
    (_autolock st = false ->
       locks st' = locks st /\ _release st' = _release st /\
       _lockowner st' = _lockowner st /\
       exists evs, added_by st st' evs /\
                   Forall (fun ev => is_lock_traffic ev = false) evs).
Proof.
  intros st st' content encryptdata r H. rewrite writeToDisk_steps in H.
  apply bind_inv in H as [(u1 & st1 & Hacq & H) | (e & Hacq & ->)].
  2:{ (* the lock could not be taken *)
      destruct (acquire_effect _ _ _ Hacq) as (evs1 & Hadd1 & Hnw1 & Hcfg & Hoff & Hon).
      split.
      - intros _. split; [eauto | discriminate].
      - intros Hauto. rewrite (Hoff Hauto). split_and!; auto.
        exists []. auto with fileproxy. }
  destruct (acquire_effect _ _ _ Hacq) as (evs1 & Hadd1 & Hnw1 & Hcfg & Hoff & Hon).
  apply bind_inv in H as [(u2 & st2 & Hst & Hrel) | (e & Hst & ->)].
  2:{ (* encrypting or writing failed *)
      destruct (store_effect _ _ _ _ _ Hst) as [(e' & _ & ->) | (Hr & _)];
        [|discriminate].
      split.
      - intros _. split; [eauto | discriminate].
      - intros Hauto. rewrite (Hoff Hauto). split_and!; auto.
        exists []. auto with fileproxy. }
  destruct (store_effect _ _ _ _ _ Hst)
    as [(e' & Hr & _) | (_ & content' & ro & Est2 & Hplain & Hcipher)];
    [discriminate|].
  destruct Hcfg as (Hauto1 & Hmunge1 & Hcipher1).
  destruct (release_effect _ _ _ Hrel)
    as (-> & Hfs & Hfile & _ & Hskip & Hunlock).
  assert (Hauto2 : _autolock st2 = _autolock st) by (rewrite Est2; exact Hauto1).
  assert (Hfile2 : dbfile st2 = dbfile st1) by (rewrite Est2; reflexivity).
  split.
  - intros Hauto. split; [discriminate|]. intros _.
    rewrite Hauto2, Hauto in Hskip, Hunlock. cbn in Hskip, Hunlock.
    exists st2, evs1, content', ro. split_and!.
    + unfold added_by in *. rewrite Hfile2, Est2. cbn.
      rewrite Hadd1, app_assoc. reflexivity.
    + exact Hnw1.
    + intros Hfree.
      destruct (Hon Hauto Hfree) as [(_ & e & He) | (rest & -> & Hl1)];
        [discriminate|].
      split; [apply list_elem_of_here|].
      rewrite Est2. cbn. rewrite Hl1. apply lookup_insert_eq.
    + rewrite Hfile2, Est2. cbn. apply lookup_insert_eq.
    + exact Hfs.
    + exact Hfile.
    + rewrite <- Hmunge1. exact Hplain.
    + rewrite <- Hmunge1. intros Hk.
      apply (encrypt_config content st st1); [|auto].
      unfold same_config. auto.
    + exact Hskip.
    + exact Hunlock.
    + intros Hheld Ho h Hh. pose proof (Hunlock Hheld) as Hu.
      rewrite (unlock_when_owner _ Hheld Ho), Hh in Hu.
      inversion Hu; subst st'; clear Hu. unfold added_by. cbn. auto.
    + intros Hheld Ho. pose proof (Hunlock Hheld) as Hu.
      rewrite (unlock_when_not_owner _ Hheld Ho) in Hu.
      inversion Hu; subst st'; clear Hu. unfold added_by. cbn. auto.
    + intros Hheld Ho Hnone. pose proof (Hunlock Hheld) as Hu.
      rewrite (unlock_when_owner _ Hheld Ho), Hnone in Hu.
      rewrite <- Hnone, set_release_same in Hu. congruence.
  - intros Hauto. rewrite (Hoff Hauto) in *.
    rewrite Hauto2, Hauto in Hskip. cbn in Hskip. rewrite (Hskip eq_refl), Est2. cbn.
    split_and!; auto.
    eexists [_]. unfold added_by. cbn. split; [reflexivity|]. repeat constructor.
Qed.

(** After a [lock ()] that took the marker, the file counts as locked
    as long as the stored path is still the one that was locked. *)
Lemma lock_then_locked (st st' : State) :
  marker_present st = false ->
  lock path st = Some (Return tt, st') ->
  dbfile st' = dbfile st ->
  marker_present st' = true.
Proof.
  intros Hfree H Hsame.
  destruct (lock_effect st st' _ Hfree H)
    as [(e & He & _) | (evs & _ & _ & Hl & _)]; [discriminate|].
  unfold marker_present. rewrite Hl, Hsame, lookup_insert_eq. reflexivity.
Qed.

(** *** A stored handle always comes with the owner flag *)

Lemma lock_keeps_handle_owner (st st' : State) (r : result unit) :
  handle_has_owner st -> lock path st = Some (r, st') -> handle_has_owner st'.
Proof.
  intros Hinv H. destruct (marker_present st) eqn:Hheld.
  - rewrite (lock_when_locked st Hheld) in H. inversion H; subst. exact Hinv.
  - destruct (lock_effect st st' r Hheld H)
      as [(e & _ & ->) | (evs & _ & _ & _ & _ & Ho & _)]; [exact Hinv|].
    unfold handle_has_owner. congruence.
Qed.

Lemma unlock_keeps_handle_owner (st st' : State) (r : result unit) :
  handle_has_owner st -> unlock st = Some (r, st') -> handle_has_owner st'.
Proof.
  intros Hinv H. destruct (marker_present st) eqn:Hheld.
  - destruct (_lockowner st) eqn:Ho.
    + rewrite (unlock_when_owner st Hheld Ho) in H.
      destruct (_release st); inversion H; subst; intros _; reflexivity.
    + rewrite (unlock_when_not_owner st Hheld Ho) in H. inversion H; subst.
      exact Hinv.
  - rewrite (unlock_when_unlocked st Hheld) in H. inversion H; subst. exact Hinv.
Qed.

Lemma writeToDisk_keeps_handle_owner
    (content : string) (encryptdata : bool) (st st' : State) (r : result unit) :
  handle_has_owner st ->
  writeToDisk path crypto content encryptdata st = Some (r, st') ->
  handle_has_owner st'.
Proof.
  intros Hinv H. rewrite writeToDisk_steps in H.
  assert (Hacq : forall r1 st1,
             acquire_if_needed path st = Some (r1, st1) -> handle_has_owner st1).
  { intros r1 st1. unfold acquire_if_needed, locked. run_step.
    destruct (_autolock st && negb (marker_present st)); cbn.
    - apply lock_keeps_handle_owner. exact Hinv.
    - intros E; inversion E; subst. exact Hinv. }
  assert (Hsto : forall st1 r2 st2,
             handle_has_owner st1 ->
             store path crypto content encryptdata st1 = Some (r2, st2) ->
             handle_has_owner st2).
  { intros st1 r2 st2 H1 E.
    destruct (store_effect _ _ _ _ _ E) as [(e & _ & ->) | (_ & c & ro & -> & _)];
      exact H1. }
  assert (Hrel : forall st2 r3 st3,
             handle_has_owner st2 ->
             release_if_held st2 = Some (r3, st3) -> handle_has_owner st3).
  { intros st2 r3 st3 H2. unfold release_if_held, locked. run_step.
    destruct (_autolock st2 && marker_present st2); cbn.
    - apply unlock_keeps_handle_owner. exact H2.
    - intros E; inversion E; subst. exact H2. }
  apply bind_inv in H as [(u1 & st1 & E1 & H) | (e & E1 & _)]; [|eauto].
  apply bind_inv in H as [(u2 & st2 & E2 & E3) | (e & E2 & _)]; eauto.
Qed.

(** *** [encrypt] and [decrypt] *)

(** C7.  For every configured key and cipher for which the [crypto]
    module's decipher stream undoes its cipher stream on the UTF-8
    bytes of [x], decrypting what [encrypt (x)] returned gives [x]
    back: splitting the output over [update] and [final], the hex
    encoding of the two pieces and their decoding lose nothing. *)
Theorem decrypt_encrypt_roundtrip :
  forall (st : State) (key x : string),
    munge st = Some key ->
    decipher_undoes_cipher crypto (cipher st) key (Encoding.utf8_encode x) ->
    (encrypt crypto x ≫= decrypt crypto) st = Some (Return x, st).
Proof.
  intros st key x Hkey
    (c & c' & out & last & d & d' & back & rest
     & Hc & Hu & Hf & Hd & Hdu & Hdf & Hplain).
  unfold encrypt, decrypt. run_step.
  rewrite Hkey. cbn. rewrite Hc, Hu. cbn. rewrite Hf. cbn.
  rewrite Hkey. cbn. rewrite Hd.
  rewrite <- hex_encode_app, hex_decode_encode, Hdu, Hdf. cbn.
  rewrite <- utf8_decode_app, Hplain, utf8_decode_encode. reflexivity.
Qed.

(** *** [mkdirp] *)

Lemma ancestor_succ (n : nat) (dir : string) :
  ancestor path (S n) dir = ancestor path n (join_up path dir).
Proof. unfold ancestor. apply Nat.iter_succ_r. Qed.

Lemma mkdirSync_returns (dir : string) (st : State) :
  exists r st',
    mkdirSync path dir st = Some (r, st') /\
    (r = Return tt -> readable dir st' = true).
Proof.
  unfold mkdirSync, record. run_step.
  destruct (fs st !! dir) as [n|] eqn:Hd.
  - eexists _, _. split; [reflexivity | discriminate].
  - destruct (fs st !! dirname path dir) as [[c r | r]|] eqn:Hp.
    + eexists _, _. split; [reflexivity | discriminate].
    + eexists _, _. split; [reflexivity|]. intros _.
      unfold readable. cbn. rewrite lookup_insert_eq. reflexivity.
    + eexists _, _. split; [reflexivity | discriminate].
Qed.

Lemma mkdirp_step (fuel : nat) (dir : string) (st : State) :
  mkdirp path (S fuel) dir st
  = if readable dir st then Some (Return tt, st)
    else if readable (join_up path dir) st then mkdirSync path dir st
    else (mkdirp path fuel (join_up path dir);; mkdirp path fuel dir) st.
Proof.
  cbn [mkdirp]. unfold pathReadable. unfold_monad.
  destruct (readable dir st); [reflexivity|].
  destruct (readable (join_up path dir) st); reflexivity.
Qed.

(** One call is enough once the parent is readable. *)
Lemma mkdirp_parent_readable (fuel : nat) (dir : string) (st : State) :
  readable (join_up path dir) st = true ->
  exists r st',
    mkdirp path (S fuel) dir st = Some (r, st') /\
    (r = Return tt -> readable dir st' = true).
Proof.
  intros Hp. rewrite mkdirp_step.
  destruct (readable dir st) eqn:Hd.
  - exists (Return tt), st. auto.
  - rewrite Hp. apply mkdirSync_returns.
Qed.

Lemma mkdirp_terminates_within (n : nat) :
  forall (dir : string) (st : State) (fuel : nat),
    readable (ancestor path n dir) st = true ->
    n < fuel ->
    exists r st',
      mkdirp path fuel dir st = Some (r, st') /\
      (r = Return tt -> readable dir st' = true).
Proof.
  induction n as [|n IH]; intros dir st fuel Hanc Hfuel.
  - destruct fuel as [|fuel]; [lia|]. rewrite mkdirp_step.
    cbn in Hanc. rewrite Hanc. exists (Return tt), st. auto.
  - destruct fuel as [|fuel]; [lia|].
    destruct (readable (join_up path dir) st) eqn:Hp.
    { apply mkdirp_parent_readable. exact Hp. }
    rewrite mkdirp_step.
    destruct (readable dir st) eqn:Hd.
    { exists (Return tt), st. auto. }
    rewrite Hp. rewrite ancestor_succ in Hanc.
    destruct (IH (join_up path dir) st fuel Hanc ltac:(lia))
      as (r1 & st1 & Hrun1 & Hpost1).
    unfold mbind, M_bind, bind. rewrite Hrun1.
    destruct r1 as [[]|e].
    + destruct fuel as [|fuel]; [destruct n; cbn in Hanc; [congruence | lia]|].
      apply mkdirp_parent_readable. apply Hpost1. reflexivity.
    + eexists _, _. split; [reflexivity | discriminate].
Qed.

Lemma mkdirp_diverges (fuel : nat) :
  forall (dir : string) (st : State),
    (forall n, readable (ancestor path n dir) st = false) ->
    mkdirp path fuel dir st = None.
Proof.
  induction fuel as [|fuel IH]; intros dir st Hnone; [reflexivity|].
  rewrite mkdirp_step.
  pose proof (Hnone 0) as H0. cbn in H0. rewrite H0.
  pose proof (Hnone 1) as H1. cbn in H1. rewrite H1.
  unfold mbind, M_bind, bind. rewrite IH; [reflexivity|].
  intros n. rewrite <- ancestor_succ. apply Hnone.
Qed.

(** More fuel never changes the outcome of a call that has returned. *)
Lemma mkdirp_fuel_mono (fuel : nat) :
  forall (dir : string) (st : State) (x : result unit * State),
    mkdirp path fuel dir st = Some x ->
    mkdirp path (S fuel) dir st = Some x.
Proof.
  induction fuel as [|fuel IH]; intros dir st x H; [discriminate|].
  rewrite mkdirp_step in H. rewrite mkdirp_step.
  destruct (readable dir st); [exact H|].
  destruct (readable (join_up path dir) st); [exact H|].
  unfold mbind, M_bind, bind in *.
  destruct (mkdirp path fuel (join_up path dir) st) as [[[[]|e] st1]|] eqn:Hup;
    [| |discriminate].
  - rewrite (IH _ _ _ Hup). apply IH. exact H.
  - rewrite (IH _ _ _ Hup). exact H.
Qed.

(** C10.  If some ancestor of [dir], reached by taking
    [path.join(_, '..')] [n] times, is readable, then [mkdirp (dir)]
    comes back (normally or with the exception of a failed
    [mkdirSync]) within a recursion depth of [n + 1], and after a
    normal return [dir] is readable.  If no ancestor is readable, the
    root included, no recursion depth is enough: the call never
    returns. *)
Theorem mkdirp_terminates_iff_readable_ancestor :
  forall (dir : string) (st : State),
    (forall n : nat,
       readable (ancestor path n dir) st = true ->
       exists r st',
         mkdirp path (S n) dir st = Some (r, st') /\
         (r = Return tt -> readable dir st' = true)) /\
    ((forall n : nat, readable (ancestor path n dir) st = false) ->
     forall fuel : nat, mkdirp path fuel dir st = None).
Proof.
  intros dir st. split.
  - intros n Hanc. apply (mkdirp_terminates_within n); [exact Hanc | lia].
  - intros Hnone fuel. apply mkdirp_diverges. exact Hnone.
Qed.

(** *** [readFromDisk] *)

(** C9.  When [pathReadable] refuses the target file (it does not exist
    or cannot be read), [readFromDisk] returns [null] and throws
    nothing, whatever the [decrypt] flag; the state is unchanged. *)
Theorem readFromDisk_unreadable_is_null :
  forall (st : State) (decrypting : bool),
    readable (dbfile st) st = false ->
    readFromDisk crypto decrypting st = Some (Return None, st).
Proof.
  intros st d H. unfold readFromDisk, pathReadable. run_step.
  rewrite H. reflexivity.
Qed.

(** C8, as amended.  For a readable target file and no usable key
    ([null] or the empty string), [readFromDisk] returns the content of
    the file as it is, for either value of the [decrypt] flag: the
    branch that throws sits under a test that already required the
    key. *)
Theorem readFromDisk_without_key_is_raw :
  forall (st : State) (content : string) (decrypting : bool),
    fs st !! dbfile st = Some (File content true) ->
    Js.truthy (munge st) = false ->
    readFromDisk crypto decrypting st = Some (Return (Some content), st).
Proof.
  intros st content d Hf Hk.
  unfold readFromDisk, pathReadable, readFileSync, readable. run_step.
  rewrite Hf. cbn. rewrite Hf. cbn. rewrite Hk, andb_false_r. reflexivity.
Qed.

End Properties.

(** ** The statements at work on the sample states *)

Lemma void_unreadable (p : string) : readable p Sample.void = false.
Proof. unfold readable. cbn. rewrite lookup_empty. reflexivity. Qed.

(** The toy cipher keeps the library contract for every password and
    plaintext. *)
Lemma rot_unshift_shift (k : nat) (c : ascii) : Rot.unshift k (Rot.shift k c) = c.
Proof.
  unfold Rot.unshift, Rot.shift.
  pose proof (nat_ascii_bounded c) as Hc.
  rewrite nat_ascii_embedding by (apply Nat.mod_upper_bound; lia).
  rewrite <- (ascii_nat_embedding c) at 2. f_equal.
  pose proof (Nat.mod_upper_bound k 256 ltac:(lia)) as Hk.
  rewrite (Nat.Div0.add_mod (nat_of_ascii c) k), (Nat.mod_small (nat_of_ascii c)) by lia.
  remember (k mod 256) as k' eqn:Ek. clear Ek k.
  destruct (Nat.lt_ge_cases (nat_of_ascii c + k') 256) as [Hs | Hs].
  - rewrite (Nat.mod_small (nat_of_ascii c + k')) by lia.
    replace (nat_of_ascii c + k' + (256 - k')) with (nat_of_ascii c + 1 * 256) by lia.
    rewrite Nat.Div0.mod_add. apply Nat.mod_small. lia.
  - replace ((nat_of_ascii c + k') mod 256) with (nat_of_ascii c + k' - 256).
    + replace (nat_of_ascii c + k' - 256 + (256 - k')) with (nat_of_ascii c) by lia.
      apply Nat.mod_small. lia.
    + replace (nat_of_ascii c + k') with ((nat_of_ascii c + k' - 256) + 1 * 256) at 2 by lia.
      rewrite Nat.Div0.mod_add. symmetry. apply Nat.mod_small. lia.
Qed.

Lemma rot_undoes_every_text (password : string) (plain : list ascii) :
  decipher_undoes_cipher Rot.crypto "rot" password plain.
Proof.
  exists (String.length password), (String.length password),
         (map (Rot.shift (String.length password)) plain), [],
         (String.length password), (String.length password), plain, [].
  repeat split; try apply app_nil_r. cbn. rewrite app_nil_r, map_map.
  f_equal. rewrite <- (map_id plain) at 2. apply map_ext. apply rot_unshift_shift.
Qed.

(** Another process (pid 4242) holds the lock: [presave] throws and the
    write that would follow does not happen. *)
Lemma presave_aborts_on_foreign_lock_witness :
  locks Sample.contended !! dbfile Sample.contended = Some (OtherProcess 4242) /\
  exists e,
    presave Posix.module 8 Sample.contended = Some (Throw e, Sample.contended) /\
    (presave Posix.module 8
       ≫= fun _ => writeToDisk Posix.module Rot.crypto "new" true) Sample.contended
    = Some (Throw e, Sample.contended).
Proof.
  split; [reflexivity|].
  destruct (presave_aborts_on_foreign_lock Posix.module unit
              (fun _ => writeToDisk Posix.module Rot.crypto "new" true)
              8 Sample.contended 4242 eq_refl) as (e & H1 & H2 & _).
  exists e. split; assumption.
Defined.

(** C2, the claim as stated fails: after [lock ()] and [unlock ()] by
    the owner, [isLockOwner] still answers [true]. *)
Lemma unlock_keeps_isLockOwner :
  locks Sample.locked_by_self !! dbfile Sample.locked_by_self = Some ThisProcess /\
  _lockowner Sample.locked_by_self = true /\
  _release Sample.locked_by_self = Some {| h_file := "/data/db.txt" |} /\
  (unlock;; isLockOwner) Sample.locked_by_self
  = Some (Return true, Sample.unlocked_again).
Proof. vm_compute. repeat split. Qed.

(** The owner of the lock on [/data/db.txt] releases it. *)
Lemma unlock_by_owner_releases_witness :
  marker_present Sample.locked_by_self = true /\
  _lockowner Sample.locked_by_self = true /\
  _release Sample.locked_by_self = Some {| h_file := "/data/db.txt" |} /\
  exists st',
    unlock Sample.locked_by_self = Some (Return tt, st') /\
    marker_present st' = false /\
    _release st' = None.
Proof.
  split; [reflexivity|]. split; [reflexivity|]. split; [reflexivity|].
  destruct (unlock_by_owner_releases Sample.locked_by_self
              {| h_file := "/data/db.txt" |} eq_refl eq_refl eq_refl)
    as (st' & Hu & _ & _ & Hfree & Hnone & _).
  exists st'. split; [exact Hu|]. split; [apply Hfree; reflexivity | exact Hnone].
Defined.





(** C5.  [lock ()] twice in succession on Linux, with the default
    [hideLockedFile], for a target file that exists.  The first call
    takes the marker of [/data/db.txt], renames the file to
    [/data/.db.txt] and moves the stored path with it; this process is
    now the owner, but the file does not count as locked, because the
    marker belongs to the old path.  The second call therefore does not
    return at its guard: it takes a second marker, for the renamed
    path, replaces the stored handle (the first marker can no longer be
    released) and emits [filelock] a second time. *)
Theorem lock_twice_after_rename_locks_twice :
  marker_present Sample.existing = false /\
  lock Posix.module Sample.existing = Some (Return tt, Sample.hidden) /\
  _lockowner Sample.hidden = true /\
  marker_present Sample.hidden = false /\
  (lock Posix.module;; lock Posix.module) Sample.existing
  = Some (Return tt, MoreSamples.hidden_locked_again) /\
  locks MoreSamples.hidden_locked_again
  = <["/data/.db.txt" := ThisProcess]> (locks Sample.hidden) /\
  _release Sample.hidden = Some {| h_file := "/data/db.txt" |} /\
  _release MoreSamples.hidden_locked_again = Some {| h_file := "/data/.db.txt" |} /\
  trace MoreSamples.hidden_locked_again
  = trace Sample.hidden ++ [LockSync "/data/.db.txt"; Emit "filelock"].
Proof. vm_compute. repeat split. Qed.

(** C6.  [writeToDisk] with autolock on Linux, with the default
    [hideLockedFile], for a target file that exists and is not locked.
    The lock is taken for [/data/db.txt]; hiding renames the file to
    [/data/.db.txt] and moves the stored path; the write goes to the
    renamed file.  After the write this process still holds the lock
    (its marker and its release handle are there), but the marker
    belongs to the old path, so the file does not count as locked and
    [unlock ()] is not called: the lock taken for the write is not
    released, and an [unlock ()] made afterwards returns at its first
    guard. *)
Theorem writeToDisk_leaks_lock_after_rename :
  _autolock Sample.existing = true /\
  marker_present Sample.existing = false /\
  writeToDisk Posix.module Rot.crypto "new" true Sample.existing
  = Some (Return tt, Sample.hidden_written) /\
  trace Sample.hidden_written
  = [LockSync "/data/db.txt";
     RenameSync "/data/db.txt" "/data/.db.txt";
     Emit "filelock";
     WriteFileSync "/data/.db.txt" "new"] /\
  locks Sample.hidden_written !! "/data/db.txt" = Some ThisProcess /\
  _release Sample.hidden_written = Some {| h_file := "/data/db.txt" |} /\
  marker_present Sample.hidden_written = false /\
  unlock Sample.hidden_written = Some (Return tt, Sample.hidden_written).
Proof. vm_compute. repeat split. Qed.

(** With autolock enabled and the lock held by another process, the
    write goes ahead, the file is still locked after it, and no release
    happens. *)
Lemma writeToDisk_leaves_foreign_lock :
  _autolock Sample.contended = true /\
  writeToDisk Posix.module Rot.crypto "new" true Sample.contended
  = Some (Return tt, Sample.contended_written) /\
  marker_present Sample.contended_written = true /\
  locks Sample.contended_written = locks Sample.contended /\
  forallb (fun ev => negb (is_lock_traffic ev)) (trace Sample.contended_written)
  = true.
Proof. vm_compute. repeat split. Qed.

(** A first write to a file that does not exist yet: lock, write,
    release. *)
Lemma writeToDisk_lock_protocol_witness :
  writeToDisk Posix.module Rot.crypto "new" true Sample.fresh
  = Some (Return tt, Sample.fresh_written) /\
  _autolock Sample.fresh = true /\
  exists st2 before,
    added_by Sample.fresh st2 (before ++ [WriteFileSync (dbfile st2) "new"]) /\
    LockSync "/data/db.txt" ∈ before /\
    fs Sample.fresh_written = fs st2.
Proof.
  assert (Hrun : writeToDisk Posix.module Rot.crypto "new" true Sample.fresh
                 = Some (Return tt, Sample.fresh_written))
    by (vm_compute; reflexivity).
  split; [exact Hrun|]. split; [reflexivity|].
  destruct (writeToDisk_lock_protocol Posix.module Rot.crypto
              Sample.fresh Sample.fresh_written "new" true (Return tt) Hrun)
    as (Hon & _).
  destruct (Hon eq_refl) as (_ & Hret).
  destruct (Hret eq_refl)
    as (st2 & before & content' & ro & Hadd & _ & Hlock & _ & Hfs & _ & Hplain & _).
  rewrite (Hplain eq_refl) in Hadd.
  exists st2, before. split; [exact Hadd|].
  split; [apply (proj1 (Hlock eq_refl)) | exact Hfs].
Defined.

(** The round trip with the key of the test suite and the toy cipher. *)
Lemma decrypt_encrypt_roundtrip_witness :
  munge Sample.keyed = Some "t3stK3y" /\
  decipher_undoes_cipher Rot.crypto (cipher Sample.keyed) "t3stK3y"
    (Encoding.utf8_encode "Doctor") /\
  (encrypt Rot.crypto "Doctor" ≫= decrypt Rot.crypto) Sample.keyed
  = Some (Return "Doctor", Sample.keyed).
Proof.
  split; [reflexivity|]. split; [apply rot_undoes_every_text|].
  apply (decrypt_encrypt_roundtrip Rot.crypto Sample.keyed "t3stK3y" "Doctor").
  - reflexivity.
  - apply rot_undoes_every_text.
Defined.

(** C8, the claim as stated fails: the file is readable, no key is
    configured, [decrypt] is [true], and the raw content comes back. *)
Lemma readFromDisk_without_key_does_not_throw :
  readable (dbfile Sample.existing) Sample.existing = true /\
  munge Sample.existing = None /\
  readFromDisk Rot.crypto true Sample.existing
  = Some (Return (Some "old"), Sample.existing).
Proof. vm_compute. repeat split. Qed.

(** Reading an existing plain file without a key. *)
Lemma readFromDisk_without_key_is_raw_witness :
  fs Sample.existing !! dbfile Sample.existing = Some (File "old" true) /\
  Js.truthy (munge Sample.existing) = false /\
  readFromDisk Rot.crypto true Sample.existing
  = Some (Return (Some "old"), Sample.existing).
Proof.
  split; [reflexivity|]. split; [reflexivity|].
  apply (readFromDisk_without_key_is_raw Rot.crypto Sample.existing "old" true);
    reflexivity.
Defined.

(** Reading a file that does not exist. *)
Lemma readFromDisk_unreadable_is_null_witness :
  readable (dbfile Sample.fresh) Sample.fresh = false /\
  readFromDisk Rot.crypto true Sample.fresh = Some (Return None, Sample.fresh).
Proof.
  split; [reflexivity|].
  apply (readFromDisk_unreadable_is_null Rot.crypto Sample.fresh true).
  reflexivity.
Defined.

(** Two levels are created below the readable [/data]; with an empty
    file system the climb from [/data] never ends. *)
Lemma mkdirp_terminates_iff_readable_ancestor_witness :
  readable (ancestor Posix.module 2 "/data/a/b") Sample.fresh = true /\
  (exists r st',
     mkdirp Posix.module 3 "/data/a/b" Sample.fresh = Some (r, st') /\
     (r = Return tt -> readable "/data/a/b" st' = true)) /\
  (forall n, readable (ancestor Posix.module n "/data") Sample.void = false) /\
  (forall fuel, mkdirp Posix.module fuel "/data" Sample.void = None).
Proof.
  split; [reflexivity|]. split.
  - apply (proj1 (mkdirp_terminates_iff_readable_ancestor
                    Posix.module "/data/a/b" Sample.fresh) 2).
    reflexivity.
  - split; [intros n; apply void_unreadable|].
    apply (proj2 (mkdirp_terminates_iff_readable_ancestor
                    Posix.module "/data" Sample.void)).
    intros n. apply void_unreadable.
Defined.
(** * Further properties *)

Lemma state_eta (st : State) :
  set_trace (trace st) (set_fs (fs st) st) = st.
Proof. destruct st; reflexivity. Qed.

Section MoreProperties.

Variable path : PathModule.
Variable crypto : CryptoModule.

(** *** [mkdirp] and the successful path of [presave] *)

Lemma mkdirSync_effect (dir : string) (st st' : State) (r : result unit) :
  mkdirSync path dir st = Some (r, st') ->
  (exists e, r = Throw e /\ st' = st) \/
  (r = Return tt /\ fs st !! dir = None /\
   st' = set_trace (trace st ++ [MkdirSync dir])
           (set_fs (<[dir := Dir true]> (fs st)) st)).
Proof.
  unfold mkdirSync, record. run_step.
  destruct (fs st !! dir) as [n|] eqn:Hd; cbn.
  - intros H; inversion H; subst. left. eauto.
  - destruct (fs st !! dirname path dir) as [[c ro | ro]|]; cbn;
      intros H; inversion H; subst; [left; eauto | right; auto | left; eauto].
Qed.

Lemma only_files_changed_refl (st : State) : only_files_changed st st.
Proof. unfold only_files_changed. symmetry. apply state_eta. Qed.

Lemma only_files_changed_trans (st1 st2 st3 : State) :
  only_files_changed st1 st2 -> only_files_changed st2 st3 ->
  only_files_changed st1 st3.
Proof.
  unfold only_files_changed. intros H12 H23. rewrite H23 at 1. rewrite H12 at 1.
  reflexivity.
Qed.

Lemma mkdirp_effect (fuel : nat) :
  forall (dir : string) (st st' : State) (r : result unit),
    mkdirp path fuel dir st = Some (r, st') ->
    only_files_changed st st' /\
    fs st ⊆ fs st' /\
    (forall p n, fs st' !! p = Some n -> fs st !! p = None ->
       n = Dir true /\ exists k, p = ancestor path k dir) /\
    exists evs,
      added_by st st' evs /\
      Forall (fun ev => exists k, ev = MkdirSync (ancestor path k dir)) evs.
Proof.
  induction fuel as [|fuel IH]; intros dir st st' r H; [discriminate|].
  rewrite mkdirp_step in H.
  destruct (readable dir st).
  { inversion H; subst. split_and!.
    - apply only_files_changed_refl.
    - reflexivity.
    - intros p n Hp Hn. congruence.
    - exists []. split; [apply added_by_refl | constructor]. }
  destruct (readable (join_up path dir) st).
  { destruct (mkdirSync_effect _ _ _ _ H) as [(e & -> & ->) | (-> & Hfree & ->)].
    - split_and!.
      + apply only_files_changed_refl.
      + reflexivity.
      + intros p n Hp Hn. congruence.
      + exists []. split; [apply added_by_refl | constructor].
    - split_and!.
      + unfold only_files_changed. destruct st; reflexivity.
      + cbn. apply insert_subseteq. exact Hfree.
      + cbn. intros p n Hp Hn. destruct (decide (dir = p)) as [<-|Hne].
        * rewrite lookup_insert_eq in Hp. inversion Hp; subst.
          split; [reflexivity|]. exists 0. reflexivity.
        * rewrite lookup_insert_ne in Hp by exact Hne. congruence.
      + eexists [_]. split; [unfold added_by; reflexivity|].
        constructor; [|constructor]. exists 0. reflexivity. }
  apply bind_inv in H as [(u & st1 & H1 & H2) | (e & H1 & ->)].
  - destruct (IH _ _ _ _ H1) as (Hf1 & Hs1 & Hn1 & evs1 & Ha1 & He1).
    destruct (IH _ _ _ _ H2) as (Hf2 & Hs2 & Hn2 & evs2 & Ha2 & He2).
    split_and!.
    + eapply only_files_changed_trans; eassumption.
    + etrans; eassumption.
    + intros p n Hp Hn. destruct (fs st1 !! p) as [n1|] eqn:Hp1.
      * assert (n = n1).
        { pose proof (lookup_weaken _ _ _ _ Hp1 Hs2) as Hw. congruence. }
        subst n1. destruct (Hn1 p n Hp1 Hn) as (-> & k & ->).
        split; [reflexivity|]. exists (S k). symmetry. apply ancestor_succ.
      * apply (Hn2 p n Hp Hp1).
    + exists (evs1 ++ evs2). split; [eapply added_by_trans; eassumption|].
      apply Forall_app. split; [|exact He2].
      eapply Forall_impl; [exact He1|]. intros ev (k & ->).
      exists (S k). rewrite ancestor_succ. reflexivity.
  - destruct (IH _ _ _ _ H1) as (Hf1 & Hs1 & Hn1 & evs1 & Ha1 & He1).
    split_and!; auto.
    + intros p n Hp Hn. destruct (Hn1 p n Hp Hn) as (-> & k & ->).
      split; [reflexivity|]. exists (S k). symmetry. apply ancestor_succ.
    + exists evs1. split; [exact Ha1|].
      eapply Forall_impl; [exact He1|]. intros ev (k & ->).
      exists (S k). rewrite ancestor_succ. reflexivity.
Qed.

(** X1.  Whatever its outcome, [mkdirp (dir)] changes nothing but the
    file system and the trace; no entry that existed is removed or
    altered; every new entry is a readable directory on the chain of
    ancestors of [dir], and each trace event is the [mkdirSync] of such
    an ancestor. *)
Theorem mkdirp_only_adds_directories :
  forall (fuel : nat) (dir : string) (st st' : State) (r : result unit),
    mkdirp path fuel dir st = Some (r, st') ->
    only_files_changed st st' /\
    fs st ⊆ fs st' /\
    (forall p n, fs st' !! p = Some n -> fs st !! p = None ->
       n = Dir true /\ exists k, p = ancestor path k dir) /\
    exists evs,
      added_by st st' evs /\
      Forall (fun ev => exists k, ev = MkdirSync (ancestor path k dir)) evs.
Proof. intros fuel. apply mkdirp_effect. Qed.

Lemma mkdirp_return_readable (fuel : nat) :
  forall (dir : string) (st st' : State),
    mkdirp path fuel dir st = Some (Return tt, st') ->
    readable dir st' = true.
Proof.
  induction fuel as [|fuel IH]; intros dir st st' H; [discriminate|].
  rewrite mkdirp_step in H.
  destruct (readable dir st) eqn:Hd.
  { inversion H; subst. exact Hd. }
  destruct (readable (join_up path dir) st).
  { destruct (mkdirSync_returns path dir st) as (r & s & Hrun & Hpost).
    rewrite Hrun in H. inversion H; subst. apply Hpost. reflexivity. }
  apply bind_inv in H as [(u & st1 & H1 & H2) | (e & H1 & He)]; [|discriminate].
  apply (IH _ _ _ H2).
Qed.

(** X2.  After a normal return of [mkdirp (dir)] the directory is
    readable, and calling [mkdirp (dir)] again returns at once: the
    state, trace included, stays as the first call left it. *)
Theorem mkdirp_again_is_noop :
  forall (fuel fuel' : nat) (dir : string) (st st' : State),
    mkdirp path fuel dir st = Some (Return tt, st') ->
    readable dir st' = true /\
    mkdirp path (S fuel') dir st' = Some (Return tt, st').
Proof.
  intros fuel fuel' dir st st' H.
  pose proof (mkdirp_return_readable _ _ _ _ H) as Hr.
  split; [exact Hr|]. rewrite mkdirp_step, Hr. reflexivity.
Qed.


Lemma only_files_changed_fields (st st' : State) :
  only_files_changed st st' ->
  dbfile st' = dbfile st /\ locks st' = locks st /\
  _release st' = _release st /\ _lockowner st' = _lockowner st /\
  same_config st st'.
Proof.
  unfold only_files_changed, same_config. intros H.
  pose proof (f_equal dbfile H) as H1. pose proof (f_equal locks H) as H2.
  pose proof (f_equal _release H) as H3. pose proof (f_equal _lockowner H) as H4.
  pose proof (f_equal _autolock H) as H5. pose proof (f_equal munge H) as H6.
  pose proof (f_equal cipher H) as H7. cbn in *. split_and!; assumption.
Qed.

(** X3.  On a file that is not locked, with a readable [n]-th ancestor
    of its directory, [presave ()] comes back within recursion depth
    [n + 1]; it takes no lock and writes no file (only directories are
    added, nothing that existed is altered), and after a normal return
    the directory of the target file is readable and the file is still
    not locked. *)
Theorem presave_prepares_directory :
  forall (n : nat) (st : State),
    marker_present st = false ->
    readable (ancestor path n (dirname path (dbfile st))) st = true ->
    exists r st',
      presave path (S n) st = Some (r, st') /\
      only_files_changed st st' /\
      fs st ⊆ fs st' /\
      (exists evs, added_by st st' evs /\ Forall quiet evs) /\
      (r = Return tt ->
         readable (dirname path (dbfile st')) st' = true /\
         marker_present st' = false).
Proof.
  intros n st Hfree Hanc.
  assert (Hpre : presave path (S n) st
                 = mkdirp path (S n) (dirname path (dbfile st)) st).
  { unfold presave, locked. unfold_monad. rewrite Hfree. reflexivity. }
  destruct (mkdirp_terminates_within path n _ st (S n) Hanc ltac:(lia))
    as (r & st' & Hrun & Hpost).
  destruct (mkdirp_effect _ _ _ _ _ Hrun) as (Hframe & Hsub & _ & evs & Hadd & Hev).
  destruct (only_files_changed_fields _ _ Hframe) as (Hfile & Hlocks & _).
  exists r, st'. rewrite Hpre. split_and!; auto.
  - exists evs. split; [exact Hadd|].
    eapply Forall_impl; [exact Hev|]. intros ev (k & ->). split; reflexivity.
  - intros Hr. rewrite Hfile. split; [auto|].
    unfold marker_present in *. rewrite Hlocks, Hfile. exact Hfree.
Qed.


(** *** Lock markers under [lock], [unlock] and [writeToDisk] *)

Lemma lock_cases (st st' : State) (r : result unit) :
  lock path st = Some (r, st') ->
  st' = st \/
  (marker_present st = false /\
   locks st' = <[dbfile st := ThisProcess]> (locks st) /\
   _release st' = Some {| h_file := dbfile st |} /\
   _lockowner st' = true).
Proof.
  intros H. destruct (marker_present st) eqn:Hheld.
  - rewrite (lock_when_locked path st Hheld) in H. inversion H; subst. auto.
  - destruct (lock_effect path st st' r Hheld H)
      as [(e & _ & ->) | (evs & _ & _ & Hl & Hr & Ho & _)]; auto.
Qed.

Lemma unlock_cases (st st' : State) (r : result unit) :
  unlock st = Some (r, st') ->
  r = Return tt /\ dbfile st' = dbfile st /\ fs st' = fs st /\
  same_config st st' /\ _lockowner st' = _lockowner st /\
  ((locks st' = locks st /\ (_release st' = _release st \/ _release st' = None)) \/
   (exists h, _release st = Some h /\ _release st' = None /\
              locks st' = delete (h_file h) (locks st) /\
              added_by st st' [ReleaseCall (h_file h); Emit "fileunlock"])).
Proof.
  intros H. destruct (marker_present st) eqn:Hheld.
  - destruct (_lockowner st) eqn:Ho.
    + rewrite (unlock_when_owner st Hheld Ho) in H.
      destruct (_release st) as [h|] eqn:Hr; inversion H; subst; cbn;
        unfold same_config; cbn; split_and!; auto.
      right. exists h. unfold added_by. cbn. auto.
    + rewrite (unlock_when_not_owner st Hheld Ho) in H. inversion H; subst; cbn.
      unfold same_config; cbn; split_and!; auto.
  - rewrite (unlock_when_unlocked st Hheld) in H. inversion H; subst.
    unfold same_config; split_and!; auto.
Qed.

Lemma lock_keeps_marks_own (st st' : State) (r : result unit) :
  handle_marks_own st -> lock path st = Some (r, st') -> handle_marks_own st'.
Proof.
  intros Hinv H. destruct (lock_cases _ _ _ H) as [-> | (_ & Hl & Hr & _)];
    [exact Hinv|].
  intros h Hh. rewrite Hr in Hh. inversion Hh; subst. cbn.
  rewrite Hl. apply lookup_insert_eq.
Qed.

Lemma unlock_keeps_marks_own (st st' : State) (r : result unit) :
  handle_marks_own st -> unlock st = Some (r, st') -> handle_marks_own st'.
Proof.
  intros Hinv H.
  destruct (unlock_cases _ _ _ H)
    as (_ & _ & _ & _ & _ & [(Hl & [Hr | Hr]) | (h & _ & Hr & _)]);
    intros h' Hh'; rewrite Hr in Hh'; [|discriminate..].
  rewrite Hl. apply Hinv. exact Hh'.
Qed.

Lemma unlock_spares_foreign (st st' : State) (r : result unit) :
  handle_marks_own st -> unlock st = Some (r, st') ->
  forall p pid, locks st !! p = Some (OtherProcess pid) ->
                locks st' !! p = Some (OtherProcess pid).
Proof.
  intros Hinv H p pid Hp.
  destruct (unlock_cases _ _ _ H)
    as (_ & _ & _ & _ & _ & [(Hl & _) | (h & Hh & _ & Hl & _)]); rewrite Hl;
    [exact Hp|].
  rewrite lookup_delete_ne; [exact Hp|].
  intros <-. rewrite (Hinv h Hh) in Hp. discriminate.
Qed.

(** X4.  [lock ()] never removes or replaces a lock marker; the only
    marker it can add is the one of the stored path, held by this
    process and matched by the stored handle; and the owner flag turns
    from false to true only in a call that added that marker.  It keeps
    the invariant that a stored handle stands for a marker of this
    process. *)
Theorem lock_adds_only_its_own_marker :
  forall (st st' : State) (r : result unit),
    lock path st = Some (r, st') ->
    (forall p o, locks st !! p = Some o -> locks st' !! p = Some o) /\
    (forall p o, locks st' !! p = Some o -> locks st !! p = None ->
       p = dbfile st /\ o = ThisProcess /\
       _release st' = Some {| h_file := p |}) /\
    (_lockowner st = false -> _lockowner st' = true ->
       locks st !! dbfile st = None /\
       locks st' !! dbfile st = Some ThisProcess) /\
    (handle_marks_own st -> handle_marks_own st').
Proof.
  intros st st' r H.
  destruct (lock_cases _ _ _ H) as [-> | (Hfree & Hl & Hr & Ho)].
  - split_and!; auto; congruence.
  - pose proof (marker_absent_lookup st Hfree) as Hnone. split_and!.
    + intros p o Hp. rewrite Hl. rewrite lookup_insert_ne; [exact Hp|].
      intros <-. congruence.
    + intros p o Hp Hn. rewrite Hl in Hp.
      destruct (decide (dbfile st = p)) as [<-|Hne].
      * rewrite lookup_insert_eq in Hp. inversion Hp; subst. auto.
      * rewrite lookup_insert_ne in Hp by exact Hne. congruence.
    + intros _ _. split; [exact Hnone|]. rewrite Hl. apply lookup_insert_eq.
    + intros Hinv. eapply lock_keeps_marks_own; eassumption.
Qed.

(** X20.  [lock ()] is idempotent as long as it does not move the
    stored path: after a call that returned normally with the stored
    path unchanged the file counts as locked, a second call returns at
    its guard and changes nothing, so two calls in a row do what one
    does; and when the first call found the file unlocked, this
    process is the recorded owner afterwards. *)
Theorem lock_again_is_noop_while_path_stays :
  forall st st' : State,
    lock path st = Some (Return tt, st') ->
    dbfile st' = dbfile st ->
    marker_present st' = true /\
    lock path st' = Some (Return tt, st') /\
    (lock path;; lock path) st = Some (Return tt, st') /\
    (marker_present st = false -> _lockowner st' = true).
Proof.
  intros st st' H Hsame.
  assert (Hheld : marker_present st' = true).
  { destruct (marker_present st) eqn:Hm.
    - rewrite (lock_when_locked path st Hm) in H. inversion H; subst. exact Hm.
    - eapply lock_then_locked; eauto. }
  pose proof (lock_when_locked path st' Hheld) as H2.
  split_and!; auto.
  - unfold mbind, M_bind, bind. rewrite H. exact H2.
  - intros Hm.
    destruct (lock_effect path st st' _ Hm H)
      as [(e & He & _) | (evs & _ & _ & _ & _ & Ho & _)]; [discriminate | exact Ho].
Qed.

(** X5.  In a state where the stored handle stands for a marker of this
    process, [unlock ()] always returns normally, never adds a marker
    and never removes or changes a marker held by another process; the
    invariant holds again afterwards. *)
Theorem unlock_spares_foreign_markers :
  forall (st st' : State) (r : result unit),
    handle_marks_own st ->
    unlock st = Some (r, st') ->
    r = Return tt /\
    (forall p pid, locks st !! p = Some (OtherProcess pid) ->
                   locks st' !! p = Some (OtherProcess pid)) /\
    (forall p o, locks st' !! p = Some o -> locks st !! p = Some o) /\
    handle_marks_own st'.
Proof.
  intros st st' r Hinv H. split_and!.
  - apply (unlock_cases _ _ _ H).
  - eapply unlock_spares_foreign; eassumption.
  - intros p o Hp.
    destruct (unlock_cases _ _ _ H)
      as (_ & _ & _ & _ & _ & [(Hl & _) | (h & _ & _ & Hl & _)]);
      rewrite Hl in Hp; [exact Hp|].
    apply lookup_delete_Some in Hp. apply Hp.
  - eapply unlock_keeps_marks_own; eassumption.
Qed.

(** X6.  When [lock ()] took the marker and left the stored path as it
    was, the [unlock ()] that follows gives the markers back exactly as
    they were before the [lock ()]: the file is unlocked, the handle is
    gone, and the release and its notification are the last two events. *)
Theorem lock_then_unlock_restores_markers :
  forall (st st1 : State),
    marker_present st = false ->
    lock path st = Some (Return tt, st1) ->
    dbfile st1 = dbfile st ->
    exists st',
      unlock st1 = Some (Return tt, st') /\
      locks st' = locks st /\
      marker_present st' = false /\
      _release st' = None /\
      fs st' = fs st1 /\
      added_by st1 st' [ReleaseCall (dbfile st); Emit "fileunlock"].
Proof.
  intros st st1 Hfree Hlock Hsame.
  destruct (lock_effect path st st1 _ Hfree Hlock)
    as [(e & He & _) | (evs & _ & _ & Hl & Hr & Ho & _)]; [discriminate|].
  pose proof (lock_then_locked path st st1 Hfree Hlock Hsame) as Hheld.
  pose proof (unlock_when_owner st1 Hheld Ho) as Hu. rewrite Hr in Hu. cbn in Hu.
  eexists. split; [exact Hu|].
  pose proof (marker_absent_lookup st Hfree) as Hnone.
  assert (Hback : delete (dbfile st) (locks st1) = locks st).
  { rewrite Hl. apply delete_insert_id. exact Hnone. }
  unfold marker_present, added_by. cbn. rewrite Hback, Hsame, Hnone.
  split_and!; reflexivity.
Qed.

(** X7.  When [lock ()] renamed the file, so that the stored path is no
    longer the one that was locked, and the new path carries no marker,
    the file does not count as locked: [unlock ()] returns at its first
    guard without any effect, and the marker taken on the old path and
    the handle for it stay. *)
Theorem lock_with_rename_is_not_undone_by_unlock :
  forall (st st1 : State) (r : result unit),
    marker_present st = false ->
    lock path st = Some (r, st1) ->
    dbfile st1 <> dbfile st ->
    locks st !! dbfile st1 = None ->
    marker_present st1 = false /\
    unlock st1 = Some (Return tt, st1) /\
    locks st1 !! dbfile st = Some ThisProcess /\
    _release st1 = Some {| h_file := dbfile st |}.
Proof.
  intros st st1 r Hfree Hlock Hmoved Hnew.
  destruct (lock_effect path st st1 _ Hfree Hlock)
    as [(e & _ & ->) | (evs & _ & _ & Hl & Hr & _)]; [congruence|].
  assert (Hfree1 : marker_present st1 = false).
  { unfold marker_present. rewrite Hl, lookup_insert_ne by congruence.
    rewrite Hnew. reflexivity. }
  split_and!; auto.
  - apply unlock_when_unlocked. exact Hfree1.
  - rewrite Hl. apply lookup_insert_eq.
Qed.


(** *** [writeToDisk] as a whole *)

Lemma acquire_cases (st st1 : State) (r1 : result unit) :
  acquire_if_needed path st = Some (r1, st1) ->
  (st1 = st /\ r1 = Return tt /\
   (_autolock st = false \/ marker_present st = true)) \/
  (_autolock st = true /\ marker_present st = false /\
   lock path st = Some (r1, st1)).
Proof.
  unfold acquire_if_needed, locked. run_step.
  destruct (_autolock st); cbn; [destruct (marker_present st); cbn|];
    intros H; try (inversion H; subst); auto.
Qed.

Lemma release_cases (st2 st' : State) (r : result unit) :
  release_if_held st2 = Some (r, st') ->
  (st' = st2 /\ r = Return tt /\
   (_autolock st2 = false \/ marker_present st2 = false)) \/
  (_autolock st2 = true /\ marker_present st2 = true /\
   unlock st2 = Some (r, st')).
Proof.
  unfold release_if_held, locked. run_step.
  destruct (_autolock st2); cbn; [destruct (marker_present st2); cbn|];
    intros H; try (inversion H; subst); auto.
Qed.

Lemma release_keeps (st2 st' : State) (r : result unit) :
  release_if_held st2 = Some (r, st') ->
  r = Return tt /\ dbfile st' = dbfile st2 /\ fs st' = fs st2 /\
  same_config st2 st'.
Proof.
  intros H. destruct (release_cases _ _ _ H) as [(-> & -> & _) | (_ & _ & Hu)].
  - split_and!; auto with fileproxy.
  - destruct (unlock_cases _ _ _ Hu) as (-> & Hf & Hfs & Hc & _). auto.
Qed.

Lemma same_config_trans (st1 st2 st3 : State) :
  same_config st1 st2 -> same_config st2 st3 -> same_config st1 st3.
Proof. unfold same_config. intros (? & ? & ?) (? & ? & ?). split_and!; congruence. Qed.

(** A normal return of [writeToDisk], summed up: what the target file
    holds and that the configuration is unchanged. *)
Lemma writeToDisk_written
    (content : string) (encryptdata : bool) (st st' : State) :
  writeToDisk path crypto content encryptdata st = Some (Return tt, st') ->
  exists content' ro,
    fs st' !! dbfile st' = Some (File content' ro) /\
    same_config st st' /\
    (encryptdata && Js.truthy (munge st) = false -> content' = content) /\
    (encryptdata && Js.truthy (munge st) = true ->
       encrypt crypto content st = Some (Return content', st)).
Proof.
  intros H. rewrite writeToDisk_steps in H.
  apply bind_inv in H as [(u1 & st1 & Hacq & H) | (e & _ & He)]; [|discriminate].
  apply bind_inv in H as [(u2 & st2 & Hst & Hrel) | (e & _ & He)]; [|discriminate].
  destruct (acquire_effect path _ _ _ Hacq) as (_ & _ & _ & Hc1 & _).
  destruct (store_effect path crypto _ _ _ _ _ Hst)
    as [(e & He & _) | (_ & content' & ro & Est2 & Hplain & Hcipher)];
    [discriminate|].
  destruct (release_keeps _ _ _ Hrel) as (_ & Hf & Hfs & Hc3).
  assert (Hc2 : same_config st1 st2)
    by (rewrite Est2; unfold same_config; cbn; auto).
  pose proof (same_config_trans _ _ _ Hc1 (same_config_trans _ _ _ Hc2 Hc3)) as Hc.
  pose proof Hc1 as (_ & Hm1 & _).
  exists content', ro. split_and!.
  - rewrite Hf, Hfs, Est2. cbn. apply lookup_insert_eq.
  - exact Hc.
  - rewrite <- Hm1. exact Hplain.
  - rewrite <- Hm1. intros Hk.
    apply (encrypt_config crypto content st st1 _ Hc1). auto.
Qed.

Lemma readFromDisk_of_file (decrypting : bool) (st : State) (c : string) (ro : bool) :
  fs st !! dbfile st = Some (File c ro) ->
  readFromDisk crypto decrypting st
  = if ro then
      if decrypting && Js.truthy (munge st) then
        (content' ← decrypt crypto c; mret (Some content')) st
      else Some (Return (Some c), st)
    else Some (Return None, st).
Proof.
  intros Hf. unfold readFromDisk, pathReadable, readFileSync, readable. run_step.
  rewrite Hf. destruct ro; cbn; [|reflexivity]. rewrite Hf. cbn.
  destruct (decrypting && Js.truthy (munge st)) eqn:Hc; [|reflexivity].
  apply andb_prop in Hc as [_ ->]. reflexivity.
Qed.

Lemma decrypt_of_encrypted (st st' : State) (key x y : string) :
  munge st = Some key ->
  decipher_undoes_cipher crypto (cipher st) key (Encoding.utf8_encode x) ->
  encrypt crypto x st = Some (Return y, st) ->
  same_config st st' ->
  decrypt crypto y st' = Some (Return x, st').
Proof.
  intros Hkey
    (c & c' & out & last & d & d' & back & rest
     & Hc & Hu & Hf & Hd & Hdu & Hdf & Hplain) Henc (_ & Hm & Hci).
  unfold encrypt in Henc. unfold decrypt. run_step.
  rewrite Hkey in Henc. cbn in Henc. rewrite Hc, Hu in Henc. cbn in Henc.
  rewrite Hf in Henc. cbn in Henc. inversion Henc; subst y.
  rewrite Hm, Hci, Hkey. cbn. rewrite Hd.
  rewrite <- hex_encode_app, hex_decode_encode, Hdu, Hdf. cbn.
  rewrite <- utf8_decode_app, Hplain, utf8_decode_encode. reflexivity.
Qed.

(** X8.  Without a usable key, what [writeToDisk] wrote is what
    [readFromDisk] returns next, for either value of both flags,
    provided the file can be read; a file that cannot be read gives
    [null]. *)
Theorem write_then_read_without_key :
  forall (st st' : State) (content : string) (encryptdata decrypting : bool),
    Js.truthy (munge st) = false ->
    writeToDisk path crypto content encryptdata st = Some (Return tt, st') ->
    readFromDisk crypto decrypting st'
    = Some (Return (if readable (dbfile st') st' then Some content else None), st').
Proof.
  intros st st' content e d Hkey H.
  destruct (writeToDisk_written _ _ _ _ H)
    as (content' & ro & Hf & (_ & Hm & _) & Hplain & _).
  rewrite (Hplain ltac:(rewrite Hkey; apply andb_false_r)) in Hf.
  rewrite (readFromDisk_of_file d st' content ro Hf).
  unfold readable. rewrite Hf, Hm, Hkey, andb_false_r.
  destruct ro; reflexivity.
Qed.

(** X9.  With a key configured, and a cipher that the [crypto] module's
    decipher undoes on this content, what [writeToDisk] wrote encrypted
    is returned decrypted by the next [readFromDisk], provided the file
    can be read. *)
Theorem write_then_read_with_key :
  forall (st st' : State) (key content : string),
    munge st = Some key ->
    Js.truthy (munge st) = true ->
    decipher_undoes_cipher crypto (cipher st) key (Encoding.utf8_encode content) ->
    writeToDisk path crypto content true st = Some (Return tt, st') ->
    readable (dbfile st') st' = true ->
    readFromDisk crypto true st' = Some (Return (Some content), st').
Proof.
  intros st st' key content Hkey Htruthy Hlib H Hread.
  destruct (writeToDisk_written _ _ _ _ H)
    as (content' & ro & Hf & Hc & _ & Hcipher).
  pose proof (Hcipher ltac:(rewrite Htruthy; reflexivity)) as Henc.
  rewrite (readFromDisk_of_file true st' content' ro Hf).
  unfold readable in Hread. rewrite Hf in Hread. destruct ro; [|discriminate].
  destruct Hc as (Ha & Hm & Hci).
  rewrite Hm, Htruthy. cbn. unfold_monad.
  rewrite (decrypt_of_encrypted st st' key content content' Hkey Hlib Henc);
    [reflexivity|].
  unfold same_config. auto.
Qed.

Lemma store_keeps_markers
    (content : string) (encryptdata : bool) (st1 st2 : State) (r : result unit) :
  store path crypto content encryptdata st1 = Some (r, st2) ->
  locks st2 = locks st1 /\ _release st2 = _release st1 /\
  _lockowner st2 = _lockowner st1 /\ dbfile st2 = dbfile st1 /\
  _autolock st2 = _autolock st1.
Proof.
  intros H.
  destruct (store_effect path crypto _ _ _ _ _ H)
    as [(e & _ & ->) | (_ & c & ro & -> & _)]; cbn; auto.
Qed.

(** X10.  In a state where the stored handle stands for a marker of
    this process, [writeToDisk] never removes or changes a marker held
    by another process, whatever its outcome, and the invariant holds
    again afterwards. *)
Theorem writeToDisk_spares_foreign_markers :
  forall (st st' : State) (content : string) (encryptdata : bool) (r : result unit),
    handle_marks_own st ->
    writeToDisk path crypto content encryptdata st = Some (r, st') ->
    (forall p pid, locks st !! p = Some (OtherProcess pid) ->
                   locks st' !! p = Some (OtherProcess pid)) /\
    handle_marks_own st'.
Proof.
  intros st st' content e r Hinv H. rewrite writeToDisk_steps in H.
  assert (Hacq : forall r1 st1,
             acquire_if_needed path st = Some (r1, st1) ->
             (forall p pid, locks st !! p = Some (OtherProcess pid) ->
                            locks st1 !! p = Some (OtherProcess pid)) /\
             handle_marks_own st1).
  { intros r1 st1 E.
    destruct (acquire_cases _ _ _ E) as [(-> & _) | (_ & _ & Hl)]; [auto|].
    destruct (lock_cases _ _ _ Hl) as [-> | (Hfree & Hlk & _)]; [auto|].
    split; [|eapply lock_keeps_marks_own; eassumption].
    intros p pid Hp. rewrite Hlk, lookup_insert_ne; [exact Hp|].
    intros <-. rewrite (marker_absent_lookup st Hfree) in Hp. discriminate. }
  apply bind_inv in H as [(u1 & st1 & E1 & H) | (e1 & E1 & _)];
    [|apply (Hacq _ _ E1)].
  destruct (Hacq _ _ E1) as (Hkeep1 & Hinv1).
  assert (Hsto : forall r2 st2,
             store path crypto content e st1 = Some (r2, st2) ->
             locks st2 = locks st1 /\ handle_marks_own st2).
  { intros r2 st2 E. destruct (store_keeps_markers _ _ _ _ _ E) as (Hl & Hr & _).
    split; [exact Hl|]. intros h Hh. rewrite Hl. apply Hinv1. congruence. }
  apply bind_inv in H as [(u2 & st2 & E2 & E3) | (e2 & E2 & _)].
  - destruct (Hsto _ _ E2) as (Hl2 & Hinv2).
    destruct (release_cases _ _ _ E3) as [(-> & _) | (_ & _ & Hu)].
    + split; [|exact Hinv2]. intros p pid Hp. rewrite Hl2. auto.
    + split; [|eapply unlock_keeps_marks_own; eassumption].
      intros p pid Hp. eapply unlock_spares_foreign; [exact Hinv2 | exact Hu |].
      rewrite Hl2. auto.
  - destruct (Hsto _ _ E2) as (Hl2 & Hinv2).
    split; [|exact Hinv2]. intros p pid Hp. rewrite Hl2. auto.
Qed.

(** X11.  With autolock enabled and the file not locked on entry, a
    [writeToDisk] that returns normally with the stored path unchanged
    has released the lock it took: the markers are exactly those from
    before the call, the handle is gone, and the target file holds the
    written content: [content] itself, or what [encrypt (content)]
    returned when encryption was asked for and a key is configured. *)
Theorem writeToDisk_releases_its_lock :
  forall (st st' : State) (content : string) (encryptdata : bool),
    _autolock st = true ->
    marker_present st = false ->
    writeToDisk path crypto content encryptdata st = Some (Return tt, st') ->
    dbfile st' = dbfile st ->
    locks st' = locks st /\
    marker_present st' = false /\
    _release st' = None /\
    exists content' ro,
      fs st' !! dbfile st = Some (File content' ro) /\
      (encryptdata && Js.truthy (munge st) = false -> content' = content) /\
      (encryptdata && Js.truthy (munge st) = true ->
         encrypt crypto content st = Some (Return content', st)).
Proof.
  intros st st' content e Hauto Hfree H Hsame.
  destruct (writeToDisk_written _ _ _ _ H)
    as (content' & ro & Hf & _ & Hplain & Hcipher).
  rewrite writeToDisk_steps in H.
  apply bind_inv in H as [(u1 & st1 & Hacq & H) | (e1 & _ & He)]; [|discriminate].
  apply bind_inv in H as [(u2 & st2 & Hst & Hrel) | (e2 & _ & He)]; [|discriminate].
  destruct (acquire_cases _ _ _ Hacq) as [(_ & _ & [Hx | Hx]) | (_ & _ & Hlock)];
    [congruence..|].
  destruct (lock_effect path st st1 _ Hfree Hlock)
    as [(e0 & He0 & _) | (evs & _ & _ & Hl1 & Hr1 & Ho1 & (Ha1 & _))];
    [discriminate|].
  destruct (store_keeps_markers _ _ _ _ _ Hst) as (Hl2 & Hr2 & Ho2 & Hf2 & Ha2).
  destruct (release_keeps _ _ _ Hrel) as (_ & Hf3 & _).
  assert (Hfile2 : dbfile st2 = dbfile st) by congruence.
  assert (Hheld2 : marker_present st2 = true).
  { unfold marker_present. rewrite Hl2, Hl1, Hfile2, lookup_insert_eq. reflexivity. }
  destruct (release_cases _ _ _ Hrel) as [(_ & _ & [Hx | Hx]) | (_ & _ & Hu)];
    [congruence..|].
  rewrite (unlock_when_owner st2 Hheld2 ltac:(congruence)) in Hu.
  rewrite Hr2, Hr1 in Hu. cbn in Hu. inversion Hu; subst st'; clear Hu.
  pose proof (marker_absent_lookup st Hfree) as Hnone.
  assert (Hback : delete (dbfile st) (locks st2) = locks st).
  { rewrite Hl2, Hl1. apply delete_insert_id. exact Hnone. }
  cbn in *. unfold marker_present. cbn. rewrite Hback, Hfile2, Hnone.
  split_and!; try reflexivity. rewrite Hfile2 in Hf.
  exists content', ro. split_and!; assumption.
Qed.

(** X12.  With autolock enabled and the file not locked on entry, a
    [writeToDisk] that throws has either changed nothing (the lock
    could not be taken) or left the lock it took in place: the marker
    of the path, the handle and the owner flag are set, and nothing
    releases them.  A throw never comes from the release step. *)
Theorem writeToDisk_throw_keeps_lock :
  forall (st st' : State) (content : string) (encryptdata : bool) (e : exn),
    _autolock st = true ->
    marker_present st = false ->
    writeToDisk path crypto content encryptdata st = Some (Throw e, st') ->
    st' = st \/
    (locks st' = <[dbfile st := ThisProcess]> (locks st) /\
     _release st' = Some {| h_file := dbfile st |} /\
     _lockowner st' = true /\
     exists evs, added_by st st' evs /\
                 Forall (fun ev => is_write ev = false) evs).
Proof.
  intros st st' content enc e Hauto Hfree H. rewrite writeToDisk_steps in H.
  apply bind_inv in H as [(u1 & st1 & Hacq & H) | (e1 & Hacq & _)].
  - destruct (acquire_effect path _ _ _ Hacq) as (evs1 & Hadd1 & Hnw1 & _).
    destruct (acquire_cases _ _ _ Hacq) as [(_ & _ & [Hx | Hx]) | (_ & _ & Hlock)];
      [congruence..|].
    destruct (lock_effect path st st1 _ Hfree Hlock)
      as [(e0 & He0 & _) | (evs & _ & _ & Hl1 & Hr1 & Ho1 & _)]; [discriminate|].
    apply bind_inv in H as [(u2 & st2 & Hst & Hrel) | (e2 & Hst & _)].
    + destruct (release_keeps _ _ _ Hrel) as (Hr & _). discriminate.
    + destruct (store_effect path crypto _ _ _ _ _ Hst)
        as [(e' & _ & ->) | (Hr & _)]; [|discriminate].
      right. split_and!; eauto.
  - destruct (acquire_effect path _ _ _ Hacq) as (evs1 & Hadd1 & Hnw1 & _).
    destruct (acquire_cases _ _ _ Hacq) as [(_ & Hx & _) | (_ & _ & Hlock)];
      [discriminate|].
    destruct (lock_effect path st st' _ Hfree Hlock)
      as [(e0 & _ & ->) | (evs & _ & _ & Hl1 & Hr1 & Ho1 & _)]; [auto|].
    right. split_and!; eauto.
Qed.


(** *** Reading, and what hiding does to it *)

Lemma hide_keeps_entry (p : string) (st st' : State) (r : result unit) :
  hide path p st = Some (r, st') ->
  fs st' !! dbfile st' = fs st !! dbfile st.
Proof.
  unfold hide, pathReadable, warn, execSync, renameSync, record. run_step.
  destruct (readable p st); cbn.
  - destruct (String.eqb (os st) "darwin"); [|destruct (String.eqb (os st) "win32")].
    + destruct (exec_fails st _); intros H; inversion H; subst; reflexivity.
    + destruct (exec_fails st _); intros H; inversion H; subst; reflexivity.
    + destruct (String.eqb _ "."); cbn.
      * intros H; inversion H; subst. reflexivity.
      * destruct (fs st !! dbfile st) as [n|] eqn:Hn; cbn;
          [destruct (is_dir _ st); cbn;
           [destruct (rename_error _ _ _ _ st); cbn|]|];
          intros H; inversion H; subst; cbn;
          rewrite ?Hn; try reflexivity.
        apply lookup_insert_eq.
  - intros H; inversion H; subst; reflexivity.
Qed.

Lemma unhide_keeps_entry (p : string) (st st' : State) (r : result unit) :
  unhide path p st = Some (r, st') ->
  fs st' !! dbfile st' = fs st !! dbfile st.
Proof.
  unfold unhide, pathReadable, warn, execSync, renameSync, record. run_step.
  destruct (readable p st); cbn.
  - destruct (String.eqb (os st) "darwin"); [|destruct (String.eqb (os st) "win32")].
    + destruct (exec_fails st _); intros H; inversion H; subst; reflexivity.
    + destruct (exec_fails st _); intros H; inversion H; subst; reflexivity.
    + destruct (String.eqb _ "."); cbn.
      * destruct (fs st !! dbfile st) as [n|] eqn:Hn; cbn;
          [destruct (is_dir _ st); cbn;
           [destruct (rename_error _ _ _ _ st); cbn|]|];
          intros H; inversion H; subst; cbn;
          rewrite ?Hn; try reflexivity.
        apply lookup_insert_eq.
      * intros H; inversion H; subst. reflexivity.
  - intros H; inversion H; subst; reflexivity.
Qed.

Lemma lock_keeps_entry (st st' : State) (r : result unit) :
  lock path st = Some (r, st') ->
  fs st' !! dbfile st' = fs st !! dbfile st.
Proof.
  unfold lock, locked, lockSync, emit, record. run_step.
  destruct (marker_present st); cbn; [intros H; inversion H; subst; reflexivity|].
  destruct (locks st !! dbfile st); cbn;
    [intros H; inversion H; subst; reflexivity|].
  destruct (is_dir (dirname path (dbfile st)) st); cbn;
    [|intros H; inversion H; subst; reflexivity].
  destruct (hidelock st); cbn; [|intros H; inversion H; subst; reflexivity].
  match goal with
  | |- context [hide path ?p ?s] =>
      destruct (hide path p s) as [[[[]|e] s1]|] eqn:Hh
  end; [| |discriminate];
    intros H; inversion H; subst; cbn;
    rewrite (hide_keeps_entry _ _ _ _ Hh); reflexivity.
Qed.

Lemma decrypt_effect (data : string) (st st' : State) (r : result string) :
  decrypt crypto data st = Some (r, st') -> st' = st.
Proof.
  unfold decrypt. run_step.
  destruct (munge st); cbn; [|intros H; inversion H; reflexivity].
  destruct (createDecipher crypto _ _); cbn; [intros H; inversion H; reflexivity|].
  destruct (decipher_update crypto _ _).
  destruct (decipher_final crypto _); intros H; inversion H; reflexivity.
Qed.

Lemma decrypt_outcome_ext (data : string) (st st' : State) :
  munge st' = munge st -> cipher st' = cipher st ->
  outcome (decrypt crypto data) st' = outcome (decrypt crypto data) st.
Proof.
  intros Hm Hc. unfold outcome, decrypt. run_step. rewrite Hm, Hc.
  destruct (munge st); cbn; [|reflexivity].
  destruct (createDecipher crypto _ _); cbn; [reflexivity|].
  destruct (decipher_update crypto _ _).
  destruct (decipher_final crypto _); reflexivity.
Qed.

Lemma readFromDisk_by_entry (decrypting : bool) (st : State) :
  readFromDisk crypto decrypting st
  = match fs st !! dbfile st with
    | Some (File c true) =>
        if decrypting && Js.truthy (munge st) then
          (content' ← decrypt crypto c; mret (Some content')) st
        else Some (Return (Some c), st)
    | Some (Dir true) => Some (Throw (SysError "EISDIR" (dbfile st)), st)
    | _ => Some (Return None, st)
    end.
Proof.
  destruct (fs st !! dbfile st) as [[c ro | ro]|] eqn:Hf.
  - rewrite (readFromDisk_of_file decrypting st c ro Hf). destruct ro; reflexivity.
  - unfold readFromDisk, pathReadable, readFileSync, readable. run_step.
    rewrite Hf. destruct ro; cbn; [|reflexivity]. rewrite Hf. reflexivity.
  - unfold readFromDisk, pathReadable, readFileSync, readable. run_step.
    rewrite Hf. reflexivity.
Qed.

Lemma readFromDisk_outcome_ext (decrypting : bool) (st st' : State) :
  fs st' !! dbfile st' = fs st !! dbfile st ->
  munge st' = munge st -> cipher st' = cipher st ->
  is_dir (dbfile st) st = false \/ dbfile st' = dbfile st ->
  outcome (readFromDisk crypto decrypting) st'
  = outcome (readFromDisk crypto decrypting) st.
Proof.
  intros Hf Hm Hc Hdir.
  pose proof (decrypt_outcome_ext) as Hd.
  unfold outcome in *. rewrite !readFromDisk_by_entry, Hf, Hm.
  unfold is_dir in Hdir.
  destruct (fs st !! dbfile st) as [[c [] | []]|]; try reflexivity.
  - destruct (decrypting && Js.truthy (munge st)); [|reflexivity].
    specialize (Hd c st st' Hm Hc). unfold_monad.
    destruct (decrypt crypto c st') as [[[]]|], (decrypt crypto c st) as [[[]]|];
      inversion Hd; reflexivity.
  - destruct Hdir as [Hdir | ->]; [discriminate | reflexivity].
Qed.

(** X13.  Taking the lock never changes what [readFromDisk] gives for
    a target that is not a directory: whatever [lock ()] did, renaming
    the file included, the entry under the stored path is the one that
    was there before, and reading returns or throws the same. *)
Theorem lock_does_not_change_what_is_read :
  forall (st st' : State) (r : result unit) (decrypting : bool),
    is_dir (dbfile st) st = false ->
    lock path st = Some (r, st') ->
    fs st' !! dbfile st' = fs st !! dbfile st /\
    outcome (readFromDisk crypto decrypting) st'
    = outcome (readFromDisk crypto decrypting) st.
Proof.
  intros st st' r d Hnodir H.
  pose proof (lock_keeps_entry _ _ _ H) as Hf. split; [exact Hf|].
  assert (Hc : munge st' = munge st /\ cipher st' = cipher st).
  { destruct (marker_present st) eqn:Hheld.
    - rewrite (lock_when_locked path st Hheld) in H. inversion H; subst. auto.
    - destruct (lock_effect path st st' r Hheld H)
        as [(e & _ & ->) | (evs & _ & _ & _ & _ & _ & (_ & Hm & Hc))]; auto. }
  apply readFromDisk_outcome_ext; [exact Hf | apply Hc | apply Hc | auto].
Qed.

(** X14.  [readFromDisk] changes nothing, whatever it returns or
    throws, and does not look at the lock markers: reading a file that
    some process has locked gives what reading it unlocked gives. *)
Theorem readFromDisk_is_a_pure_read :
  forall (st st' : State) (decrypting : bool) (r : result (option string)),
    readFromDisk crypto decrypting st = Some (r, st') ->
    st' = st /\
    forall markers : gmap string owner,
      outcome (readFromDisk crypto decrypting) (set_locks markers st) = Some r.
Proof.
  intros st st' d r H.
  assert (Hst : st' = st).
  { pose proof H as H'. rewrite readFromDisk_by_entry in H'.
    destruct (fs st !! dbfile st) as [[c [] | []]|];
      try (inversion H'; reflexivity).
    destruct (d && Js.truthy (munge st)); [|inversion H'; reflexivity].
    unfold_monad.
    destruct (decrypt crypto c st) as [[[] s]|] eqn:Hd; [| |discriminate];
      pose proof (decrypt_effect _ _ _ _ Hd) as Hs; inversion H'; subst;
      reflexivity. }
  split; [exact Hst|]. intros markers.
  rewrite (readFromDisk_outcome_ext d st (set_locks markers st));
    try reflexivity; [|right; reflexivity].
  unfold outcome. rewrite H. reflexivity.
Qed.

(** *** The text that [encrypt] returns *)

Lemma hex_digits_are_lower_hex (c : ascii) :
  is_lower_hex (Encoding.hex_digit (nat_of_ascii c / 16)) = true /\
  is_lower_hex (Encoding.hex_digit (nat_of_ascii c mod 16)) = true.
Proof. destruct c as [[] [] [] [] [] [] [] []]; vm_compute; split; reflexivity. Qed.

Lemma hex_encode_is_hex (b : list ascii) :
  all_chars is_lower_hex (Encoding.hex_encode b) = true /\
  String.length (Encoding.hex_encode b) = 2 * List.length b.
Proof.
  induction b as [|c b [IH1 IH2]]; [split; reflexivity|].
  destruct (hex_digits_are_lower_hex c) as [Hh Hl].
  rewrite hex_encode_cons. cbn [all_chars String.length List.length].
  rewrite Hh, Hl, IH1, IH2. split; [reflexivity | lia].
Qed.

Lemma all_chars_app (f : ascii -> bool) (s t : string) :
  all_chars f (s +:+ t) = all_chars f s && all_chars f t.
Proof.
  induction s as [|c s IH]; [reflexivity|].
  rewrite append_cons. cbn [all_chars]. rewrite IH, andb_assoc. reflexivity.
Qed.

Lemma length_append (s t : string) :
  String.length (s +:+ t) = String.length s + String.length t.
Proof.
  induction s as [|c s IH]; [reflexivity|].
  rewrite append_cons. cbn [String.length]. rewrite IH. reflexivity.
Qed.

(** X15.  Whatever the key, the cipher and the content, the text that
    [encrypt] returns consists of lower-case hex digits only and has
    even length; the state is unchanged. *)
Theorem encrypt_returns_hex_text :
  forall (st st' : State) (data encrypted : string),
    encrypt crypto data st = Some (Return encrypted, st') ->
    all_chars is_lower_hex encrypted = true /\
    Nat.even (String.length encrypted) = true /\
    st' = st.
Proof.
  intros st st' data y H.
  pose proof (encrypt_effect crypto _ _ _ _ H) as ->.
  unfold encrypt in H. run_step.
  destruct (munge st); cbn in H; [|discriminate].
  destruct (createCipher crypto _ _); cbn in H; [discriminate|].
  destruct (cipher_update crypto _ _) as [c' out].
  destruct (cipher_final crypto _) as [|last]; inversion H; subst y.
  destruct (hex_encode_is_hex out) as [Ho1 Ho2].
  destruct (hex_encode_is_hex last) as [Hl1 Hl2].
  rewrite all_chars_app, length_append, Ho1, Hl1, Ho2, Hl2.
  split_and!; try reflexivity.
  replace (2 * List.length out + 2 * List.length last)
    with (2 * (List.length out + List.length last)) by lia.
  apply Nat.even_spec. eexists. reflexivity.
Qed.

(** *** The two versions of [writeToDisk] *)

(** X16.  The [writeToDisk] of the database variant, which calls
    [lock ()] whenever autolock is on, and the one of the file proxy,
    which first looks at [locked], do the same in every state: [lock ()]
    returns at its own guard when the file is locked. *)
Theorem writeToDisk_versions_agree :
  forall (st : State) (content : string) (encryptdata : bool),
    writeToDisk_database path crypto content encryptdata st
    = writeToDisk path crypto content encryptdata st.
Proof.
  intros st content e. unfold writeToDisk_database, writeToDisk, locked. run_step.
  destruct (_autolock st); cbn; [|reflexivity].
  destruct (marker_present st) eqn:Hheld; cbn; [|reflexivity].
  rewrite (lock_when_locked path st Hheld). reflexivity.
Qed.


(** *** The rename branch of [hide] and [unhide] *)

Lemma hide_rename_branch (p asset : string) (st : State) (n : node) :
  readable p st = true ->
  renaming_platform st = true ->
  basename path (dbfile st) = asset ->
  String.eqb (substring 0 1 asset) "." = false ->
  fs st !! dbfile st = Some n ->
  is_dir (dirname path (Js.replace (dbfile st) asset ("." +:+ asset))) st = true ->
  rename_error path (dbfile st) (Js.replace (dbfile st) asset ("." +:+ asset)) n st
  = None ->
  hide path p st
  = Some (Return tt,
          set_dbfile (Js.replace (dbfile st) asset ("." +:+ asset))
            (set_trace
               (trace st ++
                [RenameSync (dbfile st) (Js.replace (dbfile st) asset ("." +:+ asset))])
               (set_fs
                  (<[Js.replace (dbfile st) asset ("." +:+ asset) := n]>
                     (delete (dbfile st) (fs st)))
                  st))).
Proof.
  intros Hr Hp Hb Hdot Hn Hd Hok.
  unfold renaming_platform in Hp. apply andb_prop in Hp as [H1 H2].
  apply negb_true_iff in H1, H2.
  unfold hide, pathReadable, renameSync, record. run_step.
  rewrite Hr. cbn. rewrite H1, H2, Hb, Hdot. cbn. rewrite Hn. cbn.
  rewrite Hd, Hok. reflexivity.
Qed.

Lemma unhide_rename_branch (p asset : string) (st : State) (n : node) :
  readable p st = true ->
  renaming_platform st = true ->
  basename path (dbfile st) = asset ->
  String.eqb (substring 0 1 asset) "." = true ->
  fs st !! dbfile st = Some n ->
  is_dir (dirname path
            (Js.replace (dbfile st) asset
               (substring 1 (String.length asset) asset))) st = true ->
  rename_error path (dbfile st)
    (Js.replace (dbfile st) asset (substring 1 (String.length asset) asset)) n st
  = None ->
  unhide path p st
  = Some (Return tt,
          set_dbfile
            (Js.replace (dbfile st) asset (substring 1 (String.length asset) asset))
            (set_trace
               (trace st ++
                [RenameSync (dbfile st)
                   (Js.replace (dbfile st) asset
                      (substring 1 (String.length asset) asset))])
               (set_fs
                  (<[Js.replace (dbfile st) asset
                       (substring 1 (String.length asset) asset) := n]>
                     (delete (dbfile st) (fs st)))
                  st))).
Proof.
  intros Hr Hp Hb Hdot Hn Hd Hok.
  unfold renaming_platform in Hp. apply andb_prop in Hp as [H1 H2].
  apply negb_true_iff in H1, H2.
  unfold unhide, pathReadable, renameSync, record. run_step.
  rewrite Hr. cbn. rewrite H1, H2, Hb, Hdot. cbn. rewrite Hn. cbn.
  rewrite Hd, Hok. reflexivity.
Qed.

Lemma rename_error_free (from to : string) (n : node) (st : State) :
  from = to \/ fs st !! to = None -> rename_error path from to n st = None.
Proof.
  unfold rename_error. intros [-> | Hfree].
  - rewrite String.eqb_refl. reflexivity.
  - rewrite Hfree. destruct (String.eqb from to), n; reflexivity.
Qed.

Lemma hide_dotted_is_noop (p asset : string) (st : State) :
  readable p st = true ->
  renaming_platform st = true ->
  basename path (dbfile st) = asset ->
  String.eqb (substring 0 1 asset) "." = true ->
  hide path p st = Some (Return tt, st).
Proof.
  intros Hr Hp Hb Hdot.
  unfold renaming_platform in Hp. apply andb_prop in Hp as [H1 H2].
  apply negb_true_iff in H1, H2.
  unfold hide, pathReadable. run_step.
  rewrite Hr. cbn. rewrite H1, H2, Hb, Hdot. reflexivity.
Qed.


Lemma hide_keeps_path (p : string) (st st' : State) (r : result unit) :
  readable p st = false \/ renaming_platform st = false ->
  hide path p st = Some (r, st') ->
  dbfile st' = dbfile st /\ fs st' = fs st.
Proof.
  intros Hcond.
  unfold hide, pathReadable, warn, execSync, record. run_step.
  destruct (readable p st); cbn.
  - destruct Hcond as [Hcond | Hcond]; [discriminate|].
    unfold renaming_platform in Hcond.
    destruct (String.eqb (os st) "darwin"); [|destruct (String.eqb (os st) "win32")];
      [| |discriminate];
      destruct (exec_fails st _); intros H; inversion H; subst; auto.
  - intros H; inversion H; subst; auto.
Qed.

Lemma lock_keeps_path (st st' : State) (r : result unit) :
  hidelock st = false \/ readable (dbfile st) st = false \/
  renaming_platform st = false ->
  lock path st = Some (r, st') ->
  dbfile st' = dbfile st /\ fs st' = fs st.
Proof.
  intros Hcond.
  unfold lock, locked, lockSync, emit, record. run_step.
  destruct (marker_present st); cbn; [intros H; inversion H; subst; auto|].
  destruct (locks st !! dbfile st); cbn; [intros H; inversion H; subst; auto|].
  destruct (is_dir (dirname path (dbfile st)) st); cbn;
    [|intros H; inversion H; subst; auto].
  destruct (hidelock st); cbn; [|intros H; inversion H; subst; auto].
  destruct Hcond as [Hcond | Hcond]; [discriminate|].
  match goal with
  | |- context [hide path ?p ?s] =>
      destruct (hide path p s) as [[[[]|e] s1]|] eqn:Hh
  end; [| |discriminate];
    intros H; inversion H; subst; cbn;
    eapply hide_keeps_path in Hh; try exact Hcond; exact Hh.
Qed.

(** X19.  When there is nothing to rename (hideLockedFile is off, the
    target cannot be read yet, or the platform hides with a command:
    darwin, win32), [lock ()] leaves the stored path and every file as
    they were, and [writeToDisk] ends with the stored path it started
    with. *)
Theorem stored_path_is_stable_without_rename :
  forall (st st' : State) (r : result unit),
    hidelock st = false \/ readable (dbfile st) st = false \/
    renaming_platform st = false ->
    (lock path st = Some (r, st') -> dbfile st' = dbfile st /\ fs st' = fs st) /\
    (forall content encryptdata,
        writeToDisk path crypto content encryptdata st = Some (r, st') ->
        dbfile st' = dbfile st).
Proof.
  intros st st' r Hcond. split; [apply lock_keeps_path; exact Hcond|].
  intros content e H. rewrite writeToDisk_steps in H.
  assert (Hacq : forall r1 st1,
             acquire_if_needed path st = Some (r1, st1) -> dbfile st1 = dbfile st).
  { intros r1 st1 E.
    destruct (acquire_cases _ _ _ E) as [(-> & _) | (_ & _ & Hl)]; [reflexivity|].
    apply (lock_keeps_path _ _ _ Hcond Hl). }
  apply bind_inv in H as [(u1 & st1 & E1 & H) | (e1 & E1 & _)]; [|eauto].
  pose proof (Hacq _ _ E1) as H1.
  apply bind_inv in H as [(u2 & st2 & E2 & E3) | (e2 & E2 & _)].
  - destruct (store_keeps_markers _ _ _ _ _ E2) as (_ & _ & _ & H2 & _).
    destruct (release_keeps _ _ _ E3) as (_ & H3 & _). congruence.
  - destruct (store_keeps_markers _ _ _ _ _ E2) as (_ & _ & _ & H2 & _).
    congruence.
Qed.

End MoreProperties.

(** ** [hide] and [unhide] with POSIX paths *)

Module PosixFacts.

Lemma chars_app (s t : string) :
  list_ascii_of_string (s +:+ t) = list_ascii_of_string s ++ list_ascii_of_string t.
Proof.
  induction s as [|c s IH]; [reflexivity|].
  rewrite append_cons. cbn [list_ascii_of_string]. rewrite IH. reflexivity.
Qed.

Lemma drop_while_all (f : ascii -> bool) (l r : list ascii) :
  Forall (fun c => f c = true) l ->
  Posix.drop_while f (l ++ r) = Posix.drop_while f r.
Proof.
  induction 1 as [|c l Hc _ IH]; [reflexivity|].
  cbn. rewrite Hc. exact IH.
Qed.

Lemma take_while_all (f : ascii -> bool) (l : list ascii) (c : ascii) (r : list ascii) :
  Forall (fun c => f c = true) l -> f c = false ->
  Posix.take_while f (l ++ c :: r) = l.
Proof.
  intros Hl Hc. induction Hl as [|a l Ha _ IH]; cbn.
  - rewrite Hc. reflexivity.
  - rewrite Ha, IH. reflexivity.
Qed.

Lemma drop_while_stop (f : ascii -> bool) (c : ascii) (r : list ascii) :
  f c = false -> Posix.drop_while f (c :: r) = c :: r.
Proof. intros Hc. cbn. rewrite Hc. reflexivity. Qed.

(** The characters of a name without [/], as a list. *)
Lemma no_slash_chars (seg : string) :
  all_chars not_slash seg = true ->
  Forall (fun c => not_slash c = true) (list_ascii_of_string seg).
Proof.
  induction seg as [|c seg IH]; cbn; [constructor|].
  intros H. apply andb_prop in H as [Hc Hs]. constructor; auto.
Qed.

Lemma slash_is_slash : Posix.is_slash "/" = true.
Proof. reflexivity. Qed.

Lemma not_slash_false (c : ascii) : not_slash c = true -> Posix.is_slash c = false.
Proof. unfold not_slash, Posix.is_slash. intros H. apply negb_true_iff in H. exact H. Qed.

(** Dropping trailing slashes does nothing to the reversed characters
    of [dir/seg] when [seg] is not empty and has no slash. *)
Lemma rev_join_chars (dir seg : string) :
  rev (list_ascii_of_string (dir +:+ "/" +:+ seg))
  = rev (list_ascii_of_string seg) ++ "/"%char :: rev (list_ascii_of_string dir).
Proof.
  rewrite chars_app. change ("/" +:+ seg) with (String "/" seg).
  cbn [list_ascii_of_string]. rewrite rev_app_distr. cbn [rev].
  rewrite <- app_assoc. reflexivity.
Qed.

Lemma drop_trailing_slashes (l r : list ascii) :
  l <> [] -> Forall (fun c => not_slash c = true) l ->
  Posix.drop_while Posix.is_slash (rev l ++ r) = rev l ++ r.
Proof.
  intros Hne Hl. apply List.Forall_rev in Hl.
  destruct (rev l) as [|c l'] eqn:Hr.
  - apply (f_equal (@rev ascii)) in Hr. rewrite rev_involutive in Hr. contradiction.
  - inversion Hl; subst. cbn. rewrite (not_slash_false c); auto.
Qed.

Lemma basename_join (dir seg : string) :
  seg <> "" -> all_chars not_slash seg = true ->
  Posix.basename (dir +:+ "/" +:+ seg) = seg.
Proof.
  intros Hne Hns. unfold Posix.basename. rewrite rev_join_chars.
  pose proof (no_slash_chars seg Hns) as Hl.
  rewrite drop_trailing_slashes; [|destruct seg; [contradiction | discriminate] | exact Hl].
  rewrite (take_while_all (fun c => negb (Posix.is_slash c))).
  - rewrite rev_involutive. apply string_of_list_ascii_of_string.
  - apply List.Forall_rev. exact Hl.
  - reflexivity.
Qed.

Lemma dirname_join (dir seg : string) :
  seg <> "" -> all_chars not_slash seg = true ->
  Posix.dirname (dir +:+ "/" +:+ seg) = parent_of dir.
Proof.
  intros Hne Hns. pose proof (no_slash_chars seg Hns) as Hl.
  assert (Hne' : list_ascii_of_string seg <> [])
    by (destruct seg; [contradiction | discriminate]).
  assert (Hrev : Forall (fun c => negb (Posix.is_slash c) = true)
                   (rev (list_ascii_of_string seg)))
    by (apply List.Forall_rev; exact Hl).
  destruct dir as [|c0 d'].
  - change ("" +:+ "/" +:+ seg) with (String "/" seg). unfold Posix.dirname.
    rewrite <- (app_nil_r (rev (list_ascii_of_string seg))).
    rewrite drop_trailing_slashes by assumption.
    rewrite drop_while_all by exact Hrev. reflexivity.
  - change (String c0 d' +:+ "/" +:+ seg) with (String c0 (d' +:+ "/" +:+ seg)).
    unfold Posix.dirname. rewrite rev_join_chars.
    rewrite drop_trailing_slashes by assumption.
    rewrite drop_while_all by exact Hrev.
    rewrite drop_while_stop by reflexivity.
    rewrite rev_involutive, string_of_list_ascii_of_string, length_rev.
    destruct d' as [|c1 d'']; cbn; [|rewrite andb_false_r; reflexivity].
    rewrite andb_true_r. reflexivity.
Qed.

Lemma length_parent_of (dir : string) :
  String.length (parent_of dir) <= S (String.length dir).
Proof.
  destruct dir as [|c [|c' d]]; cbn; try lia.
  destruct (Posix.is_slash c); cbn; lia.
Qed.

Lemma parent_is_not_child (dir seg : string) :
  seg <> "" -> parent_of dir <> dir +:+ "/" +:+ seg.
Proof.
  intros Hne Heq. apply (f_equal String.length) in Heq.
  pose proof (length_parent_of dir) as Hle.
  rewrite !length_append in Heq. cbn in Heq.
  destruct seg; [contradiction|]. cbn in Heq. lia.
Qed.

(** *** First occurrences *)

Lemma starts_with_refl (s : string) : Js.starts_with s s = true.
Proof.
  induction s as [|c s IH]; cbn [Js.starts_with]; [reflexivity|].
  rewrite Ascii.eqb_refl. exact IH.
Qed.

Lemma drop_length (s : string) : Js.drop (String.length s) s = "".
Proof. induction s as [|c s IH]; cbn; [reflexivity | exact IH]. Qed.

Lemma find_first_unfold (pat s : string) :
  Js.find_first pat s
  = if Js.starts_with pat s then Some ("", Js.drop (String.length pat) s)
    else match s with
         | EmptyString => None
         | String c s' =>
             match Js.find_first pat s' with
             | Some (pre, post) => Some (String c pre, post)
             | None => None
             end
         end.
Proof. destruct s; reflexivity. Qed.

Lemma find_first_none (pat : string) (c : ascii) (s : string) :
  Js.find_first pat (String c s) = None ->
  Js.starts_with pat (String c s) = false /\ Js.find_first pat s = None.
Proof.
  rewrite find_first_unfold.
  destruct (Js.starts_with pat (String c s)); [discriminate|].
  destruct (Js.find_first pat s) as [[pre post]|]; [discriminate | auto].
Qed.

Lemma starts_with_found (pat s : string) :
  Js.starts_with pat s = true -> Js.find_first pat s <> None.
Proof. intros H. rewrite find_first_unfold, H. discriminate. Qed.

Lemma starts_with_through_slash (pat x rest : string) :
  all_chars not_slash pat = true ->
  Js.starts_with pat (x +:+ String "/" rest) = true ->
  Js.starts_with pat x = true.
Proof.
  revert x. induction pat as [|a p IH]; intros x Hns H; [destruct x; reflexivity|].
  cbn [all_chars] in Hns. apply andb_prop in Hns as [Ha Hp].
  destruct x as [|b x].
  - change ("" +:+ String "/" rest) with (String "/" rest) in H.
    cbn [Js.starts_with] in H. unfold not_slash in Ha.
    destruct (Ascii.eqb a "/"); discriminate.
  - rewrite append_cons in H. cbn [Js.starts_with] in *.
    destruct (Ascii.eqb a b); [auto | discriminate].
Qed.

Lemma find_first_longer (c : ascii) (pat d : string) :
  Js.find_first pat d = None -> Js.find_first (String c pat) d = None.
Proof.
  induction d as [|b d IH]; intros H.
  - reflexivity.
  - destruct (find_first_none _ _ _ H) as [Hs Hf].
    rewrite find_first_unfold.
    assert (Hno : Js.starts_with (String c pat) (String b d) = false).
    { cbn [Js.starts_with]. destruct (Ascii.eqb c b); [|reflexivity].
      destruct (Js.starts_with pat d) eqn:Hd; [|reflexivity].
      exfalso. apply (starts_with_found _ _ Hd). exact Hf. }
    rewrite Hno, (IH Hf). reflexivity.
Qed.

Lemma find_first_join (dir pat : string) :
  pat <> "" -> all_chars not_slash pat = true ->
  Js.find_first pat dir = None ->
  Js.find_first pat (dir +:+ "/" +:+ pat) = Some (dir +:+ "/", "").
Proof.
  intros Hne Hns. induction dir as [|b d IH]; intros H.
  - change ("" +:+ "/" +:+ pat) with (String "/" pat).
    rewrite find_first_unfold.
    assert (Hno : Js.starts_with pat (String "/" pat) = false).
    { destruct pat as [|a p]; [contradiction|].
      cbn [all_chars] in Hns. cbn [Js.starts_with].
      apply andb_prop in Hns as [Ha _]. unfold not_slash in Ha.
      destruct (Ascii.eqb a "/"); [discriminate | reflexivity]. }
    rewrite Hno, find_first_unfold, starts_with_refl, drop_length. reflexivity.
  - destruct (find_first_none _ _ _ H) as [Hs Hf].
    change (String b d +:+ "/" +:+ pat) with (String b (d +:+ "/" +:+ pat)).
    rewrite find_first_unfold.
    assert (Hno : Js.starts_with pat (String b (d +:+ "/" +:+ pat)) = false).
    { destruct (Js.starts_with pat (String b (d +:+ "/" +:+ pat))) eqn:E;
        [|reflexivity].
      change (String b (d +:+ "/" +:+ pat))
        with (String b d +:+ String "/" pat) in E.
      rewrite (starts_with_through_slash _ _ _ Hns E) in Hs. discriminate. }
    rewrite Hno, (IH Hf). reflexivity.
Qed.

(** *** Replacement text without [$] *)

Lemma substitution_literal (repl matched pre post : string) :
  all_chars not_dollar repl = true ->
  Js.substitution repl matched pre post = repl.
Proof.
  induction repl as [|c r IH]; [reflexivity|].
  cbn [all_chars]. intros H. apply andb_prop in H as [Hc Hr].
  specialize (IH Hr).
  destruct c as [[] [] [] [] [] [] [] []];
    try discriminate Hc; cbn; rewrite IH; reflexivity.
Qed.

Lemma append_nil_r (s : string) : s +:+ "" = s.
Proof. induction s as [|c s IH]; [reflexivity|]. rewrite append_cons, IH. reflexivity. Qed.

Lemma append_assoc (s t u : string) : (s +:+ t) +:+ u = s +:+ (t +:+ u).
Proof.
  induction s as [|c s IH]; [reflexivity|]. rewrite !append_cons, IH. reflexivity.
Qed.

Lemma replace_last_segment (dir seg repl : string) :
  seg <> "" -> all_chars not_slash seg = true ->
  all_chars not_dollar repl = true ->
  Js.find_first seg dir = None ->
  Js.replace (dir +:+ "/" +:+ seg) seg repl = dir +:+ "/" +:+ repl.
Proof.
  intros Hne Hns Hnd Hnone. unfold Js.replace.
  rewrite (find_first_join dir seg Hne Hns Hnone).
  rewrite (substitution_literal _ _ _ _ Hnd), append_nil_r, append_assoc.
  reflexivity.
Qed.

Lemma substring_all (m : nat) (s : string) :
  String.length s <= m -> substring 0 m s = s.
Proof.
  revert m. induction s as [|c s IH]; intros m Hm.
  - destruct m; reflexivity.
  - destruct m as [|m]; [cbn in Hm; lia|]. cbn. rewrite IH; [reflexivity|].
    cbn in Hm. lia.
Qed.

(** What [plain_name] gives. *)
Lemma plain_name_facts (name : string) :
  plain_name name = true ->
  name <> "" /\
  String.eqb (substring 0 1 name) "." = false /\
  all_chars not_slash name = true /\
  all_chars not_dollar name = true.
Proof.
  destruct name as [|c name]; [discriminate|].
  unfold plain_name. intros H. apply andb_prop in H as [Hdot Hall].
  split; [discriminate|]. split.
  - assert (Hsub : substring 0 1 (String c name) = String c "")
      by (destruct name; reflexivity).
    rewrite Hsub. cbn [String.eqb]. destruct (Ascii.eqb c "."); [discriminate|].
    reflexivity.
  - revert Hall. generalize (String c name). intros s.
    induction s as [|a s IH]; [split; reflexivity|].
    cbn [all_chars]. intros H. apply andb_prop in H as [Ha Hs].
    apply andb_prop in Ha as [H1 H2].
    destruct (IH Hs) as [I1 I2]. cbn [all_chars].
    change (not_slash a) with (negb (Ascii.eqb a "/")).
    change (not_dollar a) with (negb (Ascii.eqb a "$")).
    rewrite H1, H2, I1, I2. split; reflexivity.
Qed.

End PosixFacts.

(** The target is [dir/name] on a renaming platform, it can be read,
    its name is plain and does not occur in [dir], and the directory it
    lies in exists. *)
Section PosixHiding.

Variable st : State.
Variables dir name : string.
Variable entry : node.

Hypothesis Hplatform : renaming_platform st = true.
Hypothesis Hplain : plain_name name = true.
Hypothesis Habsent : Js.find_first name dir = None.
Hypothesis Hfile : dbfile st = dir +:+ "/" +:+ name.
Hypothesis Hentry : fs st !! dbfile st = Some entry.
Hypothesis Hreadable : readable (dbfile st) st = true.
Hypothesis Hparent : is_dir (parent_of dir) st = true.

Local Abbreviation hidden := (hidden_path dir name).
Local Abbreviation hidden_state := (state_after_hide st dir name entry).

Lemma dotted_name_facts :
  String "." name <> "" /\
  all_chars not_slash (String "." name) = true /\
  all_chars not_dollar (String "." name) = true /\
  Js.find_first (String "." name) dir = None.
Proof.
  destruct (PosixFacts.plain_name_facts name Hplain) as (_ & _ & Hns & Hnd).
  split; [discriminate|]. cbn [all_chars]. rewrite Hns, Hnd.
  split_and!; try reflexivity. apply PosixFacts.find_first_longer. exact Habsent.
Qed.

Lemma hide_replacement :
  Js.replace (dbfile st) name ("." +:+ name) = hidden.
Proof.
  destruct (PosixFacts.plain_name_facts name Hplain) as (Hne & Hdot & Hns & Hnd).
  destruct dotted_name_facts as (Hne' & Hns' & Hnd' & Habsent').
  rewrite Hfile. change ("." +:+ name) with (String "." name).
  apply PosixFacts.replace_last_segment; assumption.
Qed.

Lemma hide_renames :
  rename_error Posix.module (dbfile st) hidden entry st = None ->
  hide Posix.module (dbfile st) st = Some (Return tt, hidden_state).
Proof.
  intros Hok.
  destruct (PosixFacts.plain_name_facts name Hplain) as (Hne & Hdot & Hns & Hnd).
  destruct dotted_name_facts as (Hne' & Hns' & Hnd' & Habsent').
  rewrite (hide_rename_branch Posix.module (dbfile st) name st entry);
    try assumption.
  - rewrite hide_replacement. reflexivity.
  - cbn. rewrite Hfile. apply PosixFacts.basename_join; assumption.
  - rewrite hide_replacement. cbn. unfold hidden_path.
    rewrite (PosixFacts.dirname_join dir _ Hne' Hns'). exact Hparent.
  - rewrite hide_replacement. exact Hok.
Qed.

Lemma hide_refused (code : string) :
  rename_error Posix.module (dbfile st) hidden entry st = Some code ->
  hide Posix.module (dbfile st) st = Some (Throw (SysError code hidden), st).
Proof.
  intros Hno.
  destruct (PosixFacts.plain_name_facts name Hplain) as (Hne & Hdot & Hns & Hnd).
  destruct dotted_name_facts as (Hne' & Hns' & Hnd' & Habsent').
  assert (Hb : Posix.basename (dbfile st) = name)
    by (rewrite Hfile; apply PosixFacts.basename_join; assumption).
  assert (Hd : is_dir (Posix.dirname hidden) st = true)
    by (unfold hidden_path; rewrite (PosixFacts.dirname_join dir _ Hne' Hns');
        exact Hparent).
  pose proof Hplatform as Hp.
  unfold renaming_platform in Hp. apply andb_prop in Hp as [H1 H2].
  apply negb_true_iff in H1, H2.
  unfold hide, pathReadable, renameSync, record. run_step.
  rewrite Hreadable. cbn. rewrite H1, H2. cbn [basename Posix.module].
  rewrite Hb, Hdot. cbn. rewrite Hentry. cbn. rewrite hide_replacement.
  cbn [dirname Posix.module]. rewrite Hd, Hno. reflexivity.
Qed.

Lemma hidden_state_readable : readable hidden hidden_state = true.
Proof.
  unfold readable in *. cbn. rewrite lookup_insert_eq.
  rewrite Hentry in Hreadable. exact Hreadable.
Qed.

Lemma hidden_state_parent : is_dir (parent_of dir) hidden_state = true.
Proof.
  destruct (PosixFacts.plain_name_facts name Hplain) as (Hne & _).
  unfold is_dir in *. cbn.
  rewrite lookup_insert_ne.
  - rewrite lookup_delete_ne; [exact Hparent|].
    rewrite Hfile. intros Heq. symmetry in Heq.
    exact (PosixFacts.parent_is_not_child dir name Hne Heq).
  - intros Heq. symmetry in Heq.
    exact (PosixFacts.parent_is_not_child dir (String "." name) ltac:(discriminate) Heq).
Qed.

Lemma hidden_basename : Posix.basename hidden = String "." name.
Proof.
  destruct dotted_name_facts as (Hne' & Hns' & _).
  apply PosixFacts.basename_join; assumption.
Qed.

Lemma dotted_starts_with_dot :
  String.eqb (substring 0 1 (String "." name)) "." = true.
Proof. destruct name; reflexivity. Qed.

Lemma unhide_replacement :
  Js.replace hidden (String "." name)
    (substring 1 (String.length (String "." name)) (String "." name))
  = dbfile st.
Proof.
  destruct (PosixFacts.plain_name_facts name Hplain) as (Hne & Hdot & Hns & Hnd).
  destruct dotted_name_facts as (Hne' & Hns' & Hnd' & Habsent').
  assert (Hrest : substring 1 (String.length (String "." name)) (String "." name) = name).
  { cbn [substring String.length]. apply PosixFacts.substring_all. lia. }
  rewrite Hrest, Hfile. unfold hidden_path.
  apply PosixFacts.replace_last_segment; assumption.
Qed.

Lemma unhide_renames_back :
  unhide Posix.module hidden hidden_state
  = Some (Return tt,
          set_dbfile (dbfile st)
            (set_trace (trace hidden_state ++ [RenameSync hidden (dbfile st)])
               (set_fs (<[dbfile st := entry]> (delete hidden (fs hidden_state)))
                  hidden_state))).
Proof.
  destruct (PosixFacts.plain_name_facts name Hplain) as (Hne & Hdot & Hns & Hnd).
  rewrite (unhide_rename_branch Posix.module hidden (String "." name)
             hidden_state entry).
  - change (dbfile hidden_state) with hidden. rewrite unhide_replacement.
    reflexivity.
  - exact hidden_state_readable.
  - exact Hplatform.
  - exact hidden_basename.
  - exact dotted_starts_with_dot.
  - cbn. apply lookup_insert_eq.
  - change (dbfile hidden_state) with hidden. rewrite unhide_replacement.
    cbn [dirname Posix.module]. rewrite Hfile.
    rewrite (PosixFacts.dirname_join dir name Hne Hns).
    exact hidden_state_parent.
  - change (dbfile hidden_state) with hidden. rewrite unhide_replacement.
    apply rename_error_free.
    destruct (String.eqb_spec hidden (dbfile st)) as [Heq | Hne']; [left; exact Heq|].
    right. cbn. rewrite lookup_insert_ne by exact Hne'. apply lookup_delete_eq.
Qed.

(** X17.  On a platform where hiding is done by renaming, for a readable
    target [dir/name] whose name is plain (not empty, not dot-prefixed,
    free of [/] and [$]) and does not occur in [dir], whose parent
    directory exists and whose dotted name is free: [hide] followed by
    [unhide] renames the file to [dir/.name] and back; the stored path
    and the file system end as they began, and the trace gains the two
    renames. *)
Theorem hide_then_unhide_restores :
  fs st !! hidden = None ->
  hide_then_unhide Posix.module st
  = Some (Return tt,
          set_trace
            (trace st ++ [RenameSync (dbfile st) hidden;
                          RenameSync hidden (dbfile st)])
            st).
Proof.
  intros Hfree. unfold hide_then_unhide. unfold_monad.
  rewrite (hide_renames (rename_error_free Posix.module _ _ _ _ (or_intror Hfree))).
  change (dbfile hidden_state) with hidden.
  rewrite unhide_renames_back. f_equal. f_equal.
  assert (Hfs : <[dbfile st := entry]> (delete hidden (fs hidden_state)) = fs st).
  { cbn. rewrite delete_insert_id.
    - apply insert_delete_id. exact Hentry.
    - rewrite lookup_delete_ne; [exact Hfree|].
      intros Heq. rewrite Heq in Hentry. congruence. }
  rewrite Hfs. destruct st; cbn. rewrite <- app_assoc. reflexivity.
Qed.

(** X18.  On a platform where hiding is done by renaming, for a readable
    target [dir/name] whose name is plain and does not occur in [dir],
    whose parent directory exists, and which [renameSync] can put at
    [dir/.name] (nothing is there, or something the target may
    replace: a file for a file, an empty directory for a directory),
    hiding twice renames once: the second [hide] finds the dot-prefixed
    name and returns at once, so the state after two calls is the state
    after one, with the entry under [dir/.name].  When [renameSync]
    refuses the destination instead, [hide] throws its error and
    nothing is renamed. *)
Theorem hide_twice_renames_once :
  (rename_error Posix.module (dbfile st) hidden entry st = None ->
   hide_twice Posix.module st = hide Posix.module (dbfile st) st /\
   hide Posix.module (dbfile st) st = Some (Return tt, hidden_state) /\
   dbfile hidden_state = hidden /\
   fs hidden_state !! hidden = Some entry) /\
  (forall code,
     rename_error Posix.module (dbfile st) hidden entry st = Some code ->
     hide Posix.module (dbfile st) st = Some (Throw (SysError code hidden), st)).
Proof.
  split.
  - intros Hok. split_and!.
    + unfold hide_twice. unfold_monad. rewrite (hide_renames Hok).
      change (dbfile hidden_state) with hidden.
      apply (hide_dotted_is_noop Posix.module hidden (String "." name)).
      * exact hidden_state_readable.
      * exact Hplatform.
      * exact hidden_basename.
      * exact dotted_starts_with_dot.
    + exact (hide_renames Hok).
    + reflexivity.
    + cbn. apply lookup_insert_eq.
  - intros code Hno. exact (hide_refused code Hno).
Qed.

End PosixHiding.

(** ** The further statements at work on the sample states *)

(** Two directories are created below [/data]. *)
Lemma mkdirp_only_adds_directories_witness :
  mkdirp Posix.module 3 "/data/a/b" Sample.fresh
  = Some (Return tt, MoreSamples.made) /\
  only_files_changed Sample.fresh MoreSamples.made /\
  fs Sample.fresh ⊆ fs MoreSamples.made.
Proof.
  assert (H : mkdirp Posix.module 3 "/data/a/b" Sample.fresh
              = Some (Return tt, MoreSamples.made)) by (vm_compute; reflexivity).
  split; [exact H|].
  destruct (mkdirp_only_adds_directories Posix.module _ _ _ _ _ H) as (H1 & H2 & _).
  split; assumption.
Defined.

(** A second [mkdirp] of the same directory changes nothing. *)
Lemma mkdirp_again_is_noop_witness :
  mkdirp Posix.module 3 "/data/a/b" Sample.fresh
  = Some (Return tt, MoreSamples.made) /\
  mkdirp Posix.module 1 "/data/a/b" MoreSamples.made
  = Some (Return tt, MoreSamples.made).
Proof.
  assert (H : mkdirp Posix.module 3 "/data/a/b" Sample.fresh
              = Some (Return tt, MoreSamples.made)) by (vm_compute; reflexivity).
  split; [exact H|].
  apply (mkdirp_again_is_noop Posix.module 3 0 _ _ _ H).
Defined.

(** [presave ()] for a file two directories below [/data]. *)
Lemma presave_prepares_directory_witness :
  marker_present MoreSamples.deep = false /\
  readable (ancestor Posix.module 2
              (dirname Posix.module (dbfile MoreSamples.deep)))
    MoreSamples.deep = true /\
  exists r st',
    presave Posix.module 3 MoreSamples.deep = Some (r, st') /\
    fs MoreSamples.deep ⊆ fs st'.
Proof.
  split; [reflexivity|]. split; [reflexivity|].
  destruct (presave_prepares_directory Posix.module 2 MoreSamples.deep
              eq_refl eq_refl) as (r & st' & H & _ & Hsub & _).
  exists r, st'. split; assumption.
Defined.

(** [lock ()] on a new proxy adds the marker of its own path only. *)
Lemma lock_adds_only_its_own_marker_witness :
  lock Posix.module Sample.fresh = Some (Return tt, Sample.locked_by_self) /\
  locks Sample.locked_by_self !! dbfile Sample.fresh = Some ThisProcess.
Proof.
  assert (H : lock Posix.module Sample.fresh
              = Some (Return tt, Sample.locked_by_self)) by (vm_compute; reflexivity).
  split; [exact H|].
  destruct (lock_adds_only_its_own_marker Posix.module _ _ _ H) as (_ & _ & Ho & _).
  apply (Ho eq_refl eq_refl).
Defined.

(** [lock ()] twice on a file that does not exist yet: nothing to
    rename, and the second call changes nothing. *)
Lemma lock_again_is_noop_while_path_stays_witness :
  lock Posix.module Sample.fresh = Some (Return tt, Sample.locked_by_self) /\
  dbfile Sample.locked_by_self = dbfile Sample.fresh /\
  (lock Posix.module;; lock Posix.module) Sample.fresh
  = Some (Return tt, Sample.locked_by_self).
Proof.
  assert (H : lock Posix.module Sample.fresh
              = Some (Return tt, Sample.locked_by_self)) by (vm_compute; reflexivity).
  split; [exact H|]. split; [reflexivity|].
  destruct (lock_again_is_noop_while_path_stays Posix.module Sample.fresh
              Sample.locked_by_self H eq_refl) as (_ & _ & Htwice & _).
  exact Htwice.
Defined.

(** A process without a handle cannot take away the marker of pid 4242. *)
Lemma unlock_spares_foreign_markers_witness :
  handle_marks_own Sample.contended /\
  unlock Sample.contended = Some (Return tt, after unlock Sample.contended) /\
  locks (after unlock Sample.contended) !! "/data/db.txt"
  = Some (OtherProcess 4242).
Proof.
  assert (Hinv : handle_marks_own Sample.contended) by (intros h Hh; discriminate Hh).
  assert (H : unlock Sample.contended
              = Some (Return tt, after unlock Sample.contended))
    by (vm_compute; reflexivity).
  split; [exact Hinv|]. split; [exact H|].
  destruct (unlock_spares_foreign_markers _ _ _ Hinv H) as (_ & Hkeep & _).
  apply Hkeep. reflexivity.
Defined.

(** [lock ()] then [unlock ()] on a file that does not exist yet. *)
Lemma lock_then_unlock_restores_markers_witness :
  marker_present Sample.fresh = false /\
  lock Posix.module Sample.fresh = Some (Return tt, Sample.locked_by_self) /\
  dbfile Sample.locked_by_self = dbfile Sample.fresh /\
  exists st',
    unlock Sample.locked_by_self = Some (Return tt, st') /\
    locks st' = locks Sample.fresh.
Proof.
  assert (H : lock Posix.module Sample.fresh
              = Some (Return tt, Sample.locked_by_self)) by (vm_compute; reflexivity).
  split; [reflexivity|]. split; [exact H|]. split; [reflexivity|].
  destruct (lock_then_unlock_restores_markers Posix.module Sample.fresh
              Sample.locked_by_self eq_refl H eq_refl)
    as (st' & Hu & Hl & _).
  exists st'. split; assumption.
Defined.

(** [lock ()] on an existing file on Linux, then [unlock ()]. *)
Lemma lock_with_rename_is_not_undone_by_unlock_witness :
  marker_present Sample.existing = false /\
  lock Posix.module Sample.existing = Some (Return tt, Sample.hidden) /\
  dbfile Sample.hidden <> dbfile Sample.existing /\
  locks Sample.existing !! dbfile Sample.hidden = None /\
  unlock Sample.hidden = Some (Return tt, Sample.hidden) /\
  locks Sample.hidden !! dbfile Sample.existing = Some ThisProcess.
Proof.
  assert (H : lock Posix.module Sample.existing
              = Some (Return tt, Sample.hidden)) by (vm_compute; reflexivity).
  assert (Hmoved : dbfile Sample.hidden <> dbfile Sample.existing) by discriminate.
  split; [reflexivity|]. split; [exact H|]. split; [exact Hmoved|].
  split; [reflexivity|].
  destruct (lock_with_rename_is_not_undone_by_unlock Posix.module
              Sample.existing Sample.hidden (Return tt)
              eq_refl H Hmoved eq_refl) as (_ & Hu & Hl & _).
  split; assumption.
Defined.

(** Writing ["new"] without a key and reading it back. *)
Lemma write_then_read_without_key_witness :
  Js.truthy (munge Sample.fresh) = false /\
  writeToDisk Posix.module Rot.crypto "new" true Sample.fresh
  = Some (Return tt, Sample.fresh_written) /\
  readFromDisk Rot.crypto true Sample.fresh_written
  = Some (Return (Some "new"), Sample.fresh_written).
Proof.
  assert (H : writeToDisk Posix.module Rot.crypto "new" true Sample.fresh
              = Some (Return tt, Sample.fresh_written)) by (vm_compute; reflexivity).
  split; [reflexivity|]. split; [exact H|].
  apply (write_then_read_without_key Posix.module Rot.crypto Sample.fresh
           Sample.fresh_written "new" true true eq_refl H).
Defined.

(** Writing with the key of the test suite and reading back. *)
Lemma write_then_read_with_key_witness :
  munge Sample.keyed = Some "t3stK3y" /\
  writeToDisk Posix.module Rot.crypto "{}" true Sample.keyed
  = Some (Return tt, MoreSamples.keyed_written) /\
  readable (dbfile MoreSamples.keyed_written) MoreSamples.keyed_written = true /\
  readFromDisk Rot.crypto true MoreSamples.keyed_written
  = Some (Return (Some "{}"), MoreSamples.keyed_written).
Proof.
  assert (H : writeToDisk Posix.module Rot.crypto "{}" true Sample.keyed
              = Some (Return tt, MoreSamples.keyed_written))
    by (vm_compute; reflexivity).
  split; [reflexivity|]. split; [exact H|]. split; [reflexivity|].
  apply (write_then_read_with_key Posix.module Rot.crypto Sample.keyed _
           "t3stK3y" "{}" eq_refl eq_refl (rot_undoes_every_text _ _) H eq_refl).
Defined.

(** Writing while pid 4242 holds the lock leaves its marker alone. *)
Lemma writeToDisk_spares_foreign_markers_witness :
  handle_marks_own Sample.contended /\
  writeToDisk Posix.module Rot.crypto "new" true Sample.contended
  = Some (Return tt, Sample.contended_written) /\
  locks Sample.contended_written !! "/data/db.txt" = Some (OtherProcess 4242).
Proof.
  assert (Hinv : handle_marks_own Sample.contended) by (intros h Hh; discriminate Hh).
  assert (H : writeToDisk Posix.module Rot.crypto "new" true Sample.contended
              = Some (Return tt, Sample.contended_written))
    by (vm_compute; reflexivity).
  split; [exact Hinv|]. split; [exact H|].
  destruct (writeToDisk_spares_foreign_markers Posix.module Rot.crypto
              _ _ _ _ _ Hinv H) as (Hkeep & _).
  apply Hkeep. reflexivity.
Defined.

(** A first write leaves no marker behind, and the file holds what was
    written. *)
Lemma writeToDisk_releases_its_lock_witness :
  _autolock Sample.fresh = true /\
  marker_present Sample.fresh = false /\
  writeToDisk Posix.module Rot.crypto "new" true Sample.fresh
  = Some (Return tt, Sample.fresh_written) /\
  dbfile Sample.fresh_written = dbfile Sample.fresh /\
  locks Sample.fresh_written = locks Sample.fresh /\
  exists ro, fs Sample.fresh_written !! "/data/db.txt" = Some (File "new" ro).
Proof.
  assert (H : writeToDisk Posix.module Rot.crypto "new" true Sample.fresh
              = Some (Return tt, Sample.fresh_written)) by (vm_compute; reflexivity).
  split; [reflexivity|]. split; [reflexivity|]. split; [exact H|].
  split; [reflexivity|].
  destruct (writeToDisk_releases_its_lock Posix.module Rot.crypto Sample.fresh
              Sample.fresh_written "new" true eq_refl eq_refl H eq_refl)
    as (Hlocks & _ & _ & content' & ro & Hfile & Hplain & _).
  split; [exact Hlocks|]. exists ro. rewrite <- (Hplain eq_refl). exact Hfile.
Defined.

(** A write that fails in [encrypt] leaves the file locked. *)
Lemma writeToDisk_throw_keeps_lock_witness :
  _autolock MoreSamples.unknown_cipher = true /\
  marker_present MoreSamples.unknown_cipher = false /\
  writeToDisk Posix.module Rot.crypto "{}" true MoreSamples.unknown_cipher
  = Some (Throw (CryptoError "Unknown cipher"), MoreSamples.unknown_cipher_stuck) /\
  (MoreSamples.unknown_cipher_stuck = MoreSamples.unknown_cipher \/
   _lockowner MoreSamples.unknown_cipher_stuck = true).
Proof.
  assert (H : writeToDisk Posix.module Rot.crypto "{}" true MoreSamples.unknown_cipher
              = Some (Throw (CryptoError "Unknown cipher"),
                      MoreSamples.unknown_cipher_stuck))
    by (vm_compute; reflexivity).
  split; [reflexivity|]. split; [reflexivity|]. split; [exact H|].
  destruct (writeToDisk_throw_keeps_lock Posix.module Rot.crypto
              MoreSamples.unknown_cipher MoreSamples.unknown_cipher_stuck
              "{}" true (CryptoError "Unknown cipher") eq_refl eq_refl H) as [Hsame | (_ & _ & Ho & _)]; auto.
Defined.

(** Reading the existing file before and after [lock ()] renamed it. *)
Lemma lock_does_not_change_what_is_read_witness :
  is_dir (dbfile Sample.existing) Sample.existing = false /\
  lock Posix.module Sample.existing = Some (Return tt, Sample.hidden) /\
  outcome (readFromDisk Rot.crypto true) Sample.hidden
  = outcome (readFromDisk Rot.crypto true) Sample.existing.
Proof.
  assert (H : lock Posix.module Sample.existing
              = Some (Return tt, Sample.hidden)) by (vm_compute; reflexivity).
  split; [reflexivity|]. split; [exact H|].
  apply (lock_does_not_change_what_is_read Posix.module Rot.crypto
           Sample.existing Sample.hidden (Return tt) true eq_refl H).
Defined.

(** Reading a file that pid 4242 has locked. *)
Lemma readFromDisk_is_a_pure_read_witness :
  readFromDisk Rot.crypto true Sample.existing
  = Some (Return (Some "old"), Sample.existing) /\
  outcome (readFromDisk Rot.crypto true)
    (set_locks (locks Sample.contended) Sample.existing)
  = Some (Return (Some "old")).
Proof.
  assert (H : readFromDisk Rot.crypto true Sample.existing
              = Some (Return (Some "old"), Sample.existing))
    by (vm_compute; reflexivity).
  split; [exact H|].
  apply (readFromDisk_is_a_pure_read Rot.crypto _ _ _ _ H).
Defined.

(** The toy cipher's output for ["{}"] is hex text. *)
Lemma encrypt_returns_hex_text_witness :
  encrypt Rot.crypto "{}" Sample.keyed = Some (Return "8284", Sample.keyed) /\
  all_chars is_lower_hex "8284" = true.
Proof.
  assert (H : encrypt Rot.crypto "{}" Sample.keyed
              = Some (Return "8284", Sample.keyed)) by (vm_compute; reflexivity).
  split; [exact H|].
  apply (encrypt_returns_hex_text Rot.crypto _ _ _ _ H).
Defined.

(** Nothing to rename for a file that does not exist yet. *)
Lemma stored_path_is_stable_without_rename_witness :
  readable (dbfile Sample.fresh) Sample.fresh = false /\
  lock Posix.module Sample.fresh = Some (Return tt, Sample.locked_by_self) /\
  dbfile Sample.locked_by_self = dbfile Sample.fresh.
Proof.
  assert (H : lock Posix.module Sample.fresh
              = Some (Return tt, Sample.locked_by_self)) by (vm_compute; reflexivity).
  split; [reflexivity|]. split; [exact H|].
  apply (proj1 (stored_path_is_stable_without_rename Posix.module Rot.crypto
                  Sample.fresh Sample.locked_by_self (Return tt)
                  (or_intror (or_introl eq_refl))) H).
Defined.

(** [/data/db.txt] is renamed to [/data/.db.txt] and back. *)
Lemma hide_then_unhide_restores_witness :
  renaming_platform Sample.existing = true /\
  plain_name "db.txt" = true /\
  Js.find_first "db.txt" "/data" = None /\
  fs Sample.existing !! hidden_path "/data" "db.txt" = None /\
  hide_then_unhide Posix.module Sample.existing
  = Some (Return tt,
          set_trace
            [RenameSync "/data/db.txt" "/data/.db.txt";
             RenameSync "/data/.db.txt" "/data/db.txt"]
            Sample.existing).
Proof.
  split; [reflexivity|]. split; [reflexivity|]. split; [reflexivity|].
  split; [reflexivity|].
  apply (hide_then_unhide_restores Sample.existing "/data" "db.txt"
           (File "old" true) eq_refl eq_refl eq_refl eq_refl eq_refl eq_refl
           eq_refl eq_refl).
Defined.

(** Hiding [/data/db.txt] twice gives [/data/.db.txt], not a second
    dot; with a directory in the way at [/data/.db.txt], [hide] throws
    and the file keeps its name. *)
Lemma hide_twice_renames_once_witness :
  renaming_platform Sample.existing = true /\
  plain_name "db.txt" = true /\
  Js.find_first "db.txt" "/data" = None /\
  rename_error Posix.module "/data/db.txt" "/data/.db.txt" (File "old" true)
    Sample.existing = None /\
  hide_twice Posix.module Sample.existing
  = hide Posix.module (dbfile Sample.existing) Sample.existing /\
  rename_error Posix.module "/data/db.txt" "/data/.db.txt" (File "old" true)
    MoreSamples.dotted_taken = Some "EISDIR" /\
  hide Posix.module "/data/db.txt" MoreSamples.dotted_taken
  = Some (Throw (SysError "EISDIR" "/data/.db.txt"), MoreSamples.dotted_taken).
Proof.
  split; [reflexivity|]. split; [reflexivity|]. split; [reflexivity|].
  split; [reflexivity|]. split.
  - apply (proj1 (hide_twice_renames_once Sample.existing "/data" "db.txt"
                    (File "old" true) eq_refl eq_refl eq_refl eq_refl eq_refl
                    eq_refl eq_refl) eq_refl).
  - split; [reflexivity|].
    apply (proj2 (hide_twice_renames_once MoreSamples.dotted_taken "/data" "db.txt"
                    (File "old" true) eq_refl eq_refl eq_refl eq_refl eq_refl
                    eq_refl eq_refl) "EISDIR" eq_refl).
Defined.
